(** * Job application tracker: the classification core

    A shallow embedding of [job_application_tracker.py]: the noise filter
    [is_job_alert], the extractors [extract_company], [extract_role] and
    [categorize_status], the per-message loop of [analyze_applications] and the
    tabular part of [generate_report].

    A Python [str] is a sequence of Unicode code points.  The behaviour of the
    interpreter on ASCII and on the en dash U+2013 (the only non-ASCII
    character the source patterns mention) is written out; the rest of the
    Unicode character database is a parameter ([UnicodeDB]), so every theorem
    holds whatever that database says. *)

From Stdlib Require Import String Ascii List NArith ZArith Bool Arith Lia.
From Stdlib Require Import Permutation Sorted.
Import ListNotations.

Set Implicit Arguments.

(** ** Code points and literals *)

Definition char := N.
Definition str := list char.

(** An ASCII source literal as a [str]. *)
Definition py (s : string) : str := map N_of_ascii (list_ascii_of_string s).

Definition en_dash : char := 8211%N.

Definition ch (a : ascii) : char := N_of_ascii a.

(** ** The interpreter's exceptions *)

Inductive exn :=
| AttributeError
| IndexError
| OverflowError
| ValueError
| OSError.

Inductive result (A : Type) :=
| Ok (a : A)
| Raise (e : exn).

Arguments Ok {A} a.
Arguments Raise {A} e.

Definition bind {A B} (x : result A) (f : A -> result B) : result B :=
  match x with
  | Ok a => f a
  | Raise e => Raise e
  end.

Notation "x <- c ;; k" := (bind c (fun x => k))
  (at level 61, c at next level, right associativity).

(** ** The character database *)

(** What CPython's tables say outside ASCII and U+2013.  [uni_lower] and
    [uni_totitle] are the full case mappings used by [str.lower] and
    [str.title] (one code point may map to several); [uni_ci_eq p c] says
    whether the pattern literal [p] matches the input character [c] under
    [re.IGNORECASE].  [str.lower] is taken code point by code point: its one
    context rule, which writes a capital sigma at the end of a word as the
    final small sigma, is left out; both small sigmas lie outside ASCII and
    no pattern or keyword of the source mentions them. *)
Class UnicodeDB := {
  uni_isalnum : char -> bool;
  uni_isspace : char -> bool;
  uni_iscased : char -> bool;
  uni_lower : char -> str;
  uni_totitle : char -> str;
  uni_ci_eq : char -> char -> bool
}.

(** A database that knows no letters, digits or spaces outside ASCII. *)
Definition plain_db : UnicodeDB := {|
  uni_isalnum := fun _ => false;
  uni_isspace := fun _ => false;
  uni_iscased := fun _ => false;
  uni_lower := fun c => [c];
  uni_totitle := fun c => [c];
  uni_ci_eq := N.eqb
|}.

Definition is_ascii (c : char) : bool := (c <? 128)%N.

Definition between (lo hi c : char) : bool := ((lo <=? c) && (c <=? hi))%N.
Arguments between (lo hi c)%_N.

Definition ascii_isupper (c : char) : bool := between 65 90 c.
Definition ascii_islower (c : char) : bool := between 97 122 c.
Definition ascii_isalpha (c : char) : bool := ascii_isupper c || ascii_islower c.
Definition ascii_isdigit (c : char) : bool := between 48 57 c.

Definition ascii_lower (c : char) : char :=
  if ascii_isupper c then (c + 32)%N else c.
Definition ascii_upper (c : char) : char :=
  if ascii_islower c then (c - 32)%N else c.

(** [Py_UNICODE_ISSPACE] on ASCII: TAB..CR, FS..US and the space. *)
Definition ascii_isspace (c : char) : bool :=
  between 9 13 c || between 28 31 c || (c =? 32)%N.

Section Unicode.
Context {U : UnicodeDB}.

(** [\s] and the characters [str.strip] removes. *)
Definition is_space (c : char) : bool :=
  if is_ascii c then ascii_isspace c
  else if (c =? en_dash)%N then false
  else uni_isspace c.

(** [\w]: alphanumeric or the underscore. *)
Definition is_word (c : char) : bool :=
  if is_ascii c then ascii_isalpha c || ascii_isdigit c || (c =? 95)%N
  else if (c =? en_dash)%N then false
  else uni_isalnum c.

Definition is_cased (c : char) : bool :=
  if is_ascii c then ascii_isalpha c
  else if (c =? en_dash)%N then false
  else uni_iscased c.

Definition lower_char (c : char) : str :=
  if is_ascii c then [ascii_lower c]
  else if (c =? en_dash)%N then [c]
  else uni_lower c.

Definition title_char (c : char) : str :=
  if is_ascii c then [ascii_upper c]
  else if (c =? en_dash)%N then [c]
  else uni_totitle c.

(** ** [str] methods *)

(** [s.lower()] *)
Definition lower (s : str) : str := flat_map lower_char s.

(** [s.title()]: a character that follows a cased one is lower-cased, any
    other is title-cased. *)
Fixpoint title_from (previous_is_cased : bool) (s : str) : str :=
  match s with
  | [] => []
  | c :: s' =>
      (if previous_is_cased then lower_char c else title_char c)
        ++ title_from (is_cased c) s'
  end.

Definition title (s : str) : str := title_from false s.

Fixpoint lstrip (s : str) : str :=
  match s with
  | c :: s' => if is_space c then lstrip s' else s
  | [] => []
  end.

(** [s.strip()] *)
Definition strip (s : str) : str := rev (lstrip (rev (lstrip s))).

End Unicode.

(** [s.startswith(p)] *)
Fixpoint startswith (p s : str) : bool :=
  match p, s with
  | [], _ => true
  | a :: p', b :: s' => (a =? b)%N && startswith p' s'
  | _ :: _, [] => false
  end.

(** [needle in hay] *)
Fixpoint contains (needle hay : str) : bool :=
  startswith needle hay ||
  match hay with
  | [] => false
  | _ :: hay' => contains needle hay'
  end.

(** [s.replace(old, new)] for a non-empty [old]: occurrences are replaced from
    the left and do not overlap; [skip] counts the characters of the
    occurrence just replaced that are still to be passed over. *)
Fixpoint replace_from (old new : str) (skip : nat) (s : str) : str :=
  match s with
  | [] => []
  | c :: s' =>
      match skip with
      | S n => replace_from old new n s'
      | O =>
          if startswith old s
          then new ++ replace_from old new (length old - 1) s'
          else c :: replace_from old new 0 s'
      end
  end.

(** [s.replace(old, new)]; with an empty [old], [new] goes before every
    character and at the end. *)
Definition replace (old new s : str) : str :=
  match old with
  | [] => new ++ flat_map (fun c => c :: new) s
  | _ :: _ => replace_from old new 0 s
  end.

(** [s[:n]] *)
Definition slice_to (n : nat) (s : str) : str := firstn n s.

(** Truthiness of a [str]. *)
Definition truthy (s : str) : bool :=
  match s with [] => false | _ :: _ => true end.

(** [any(kw in hay for kw in kws)] *)
Definition any_in (kws : list str) (hay : str) : bool :=
  existsb (fun kw => contains kw hay) kws.

Definition str_eqb (a b : str) : bool :=
  (length a =? length b) && startswith a b.

(** ** Regular expressions, as [re] matches them

    Only the constructs the source patterns use: literals, [.], sets and
    classes, sequence, alternation, greedy and lazy repetition of a
    one-character atom, capturing groups and [$].  A non-capturing group
    [(?:...)] is plain nesting. *)

Inductive item :=
| IWord                (* \w *)
| ISpace               (* \s *)
| IChar (c : char).

Inductive atom :=
| ALit (c : char)
| AAny                 (* . *)
| ASet (items : list item).

Inductive regex :=
| Empty
| Atom (a : atom)
| Seq (r1 r2 : regex)
| Alt (r1 r2 : regex)
| Rep (a : atom) (lo : nat) (hi : option nat) (greedy : bool)
| Group (n : nat) (r : regex)
| Eol.                 (* $ *)

Notation "r1 +> r2" := (Seq r1 r2) (at level 45, right associativity).
Notation "r1 </> r2" := (Alt r1 r2) (at level 55, right associativity).

(** A literal string, character by character. *)
Fixpoint lit_of (s : str) : regex :=
  match s with
  | [] => Empty
  | [c] => Atom (ALit c)
  | c :: s' => Atom (ALit c) +> lit_of s'
  end.

Definition lit (s : string) : regex := lit_of (py s).

(** The number of capturing groups of a pattern. *)
Fixpoint ngroups (r : regex) : nat :=
  match r with
  | Seq r1 r2 | Alt r1 r2 => Nat.max (ngroups r1) (ngroups r2)
  | Group n r1 => Nat.max n (ngroups r1)
  | _ => 0
  end.

(** Captured groups, the most recent capture first. *)
Definition groups := list (nat * str).

Fixpoint lookup_group (n : nat) (g : groups) : option str :=
  match g with
  | [] => None
  | (k, v) :: g' => if (k =? n)%nat then Some v else lookup_group n g'
  end.

(** A match object: [group n] is [None] for a group that took no part in the
    match and raises [IndexError] for a group the pattern does not have. *)
Record match_obj := { m_ngroups : nat; m_groups : groups }.

Definition group (m : match_obj) (n : nat) : result (option str) :=
  if (n <=? m_ngroups m)%nat then Ok (lookup_group n (m_groups m))
  else Raise IndexError.

Definition room (hi : option nat) : bool :=
  match hi with
  | None => true
  | Some n => (0 <? n)%nat
  end.

Definition one_less (hi : option nat) : option nat := option_map pred hi.

Section Matcher.
Context {U : UnicodeDB}.

(** Whether the pattern literal [p] matches [c] under [re.IGNORECASE]. *)
Definition ci_eq (p c : char) : bool :=
  if is_ascii p && is_ascii c then (ascii_lower c =? ascii_lower p)%N
  else if (p =? en_dash)%N || (c =? en_dash)%N then (c =? p)%N
  else uni_ci_eq p c.

Definition lit_match (ignorecase : bool) (p c : char) : bool :=
  if ignorecase then ci_eq p c else (c =? p)%N.

Definition item_match (ignorecase : bool) (it : item) (c : char) : bool :=
  match it with
  | IWord => is_word c
  | ISpace => is_space c
  | IChar p => lit_match ignorecase p c
  end.

(** [.] matches anything but a newline. *)
Definition atom_match (ignorecase : bool) (a : atom) (c : char) : bool :=
  match a with
  | ALit p => lit_match ignorecase p c
  | AAny => negb (c =? 10)%N
  | ASet items => existsb (fun it => item_match ignorecase it c) items
  end.

Section Backtrack.
Variable A : Type.
Variable ignorecase : bool.

(** Repetition of an atom, between [lo] and [hi] more times; [k] is the rest
    of the match.  Greedy repetition tries one more character before it tries
    to stop, lazy repetition the other way round. *)
Fixpoint match_rep (a : atom) (greedy : bool) (lo : nat) (hi : option nat)
    (k : str -> option A) (s : str) {struct s} : option A :=
  let stop (_ : unit) := if (lo =? 0)%nat then k s else None in
  match s with
  | [] => stop tt
  | c :: s' =>
      if atom_match ignorecase a c && room hi then
        if greedy then
          match match_rep a greedy (pred lo) (one_less hi) k s' with
          | Some x => Some x
          | None => stop tt
          end
        else
          match stop tt with
          | Some x => Some x
          | None => match_rep a greedy (pred lo) (one_less hi) k s'
          end
      else stop tt
  end.

(** Backtracking match of [r] at the start of [s]: alternatives in order, the
    first that lets the rest of the pattern [k] succeed wins.  [$] matches at
    the end and before a final newline. *)
Fixpoint match_re (r : regex) (s : str) (g : groups)
    (k : str -> groups -> option A) {struct r} : option A :=
  match r with
  | Empty => k s g
  | Atom a =>
      match s with
      | c :: s' => if atom_match ignorecase a c then k s' g else None
      | [] => None
      end
  | Seq r1 r2 => match_re r1 s g (fun s1 g1 => match_re r2 s1 g1 k)
  | Alt r1 r2 =>
      match match_re r1 s g k with
      | Some x => Some x
      | None => match_re r2 s g k
      end
  | Rep a lo hi greedy => match_rep a greedy lo hi (fun s' => k s' g) s
  | Group n r1 =>
      match_re r1 s g
        (fun s' g' => k s' ((n, firstn (length s - length s') s) :: g'))
  | Eol =>
      match s with
      | [] => k s g
      | [c] => if (c =? 10)%N then k s g else None
      | _ => None
      end
  end.

End Backtrack.

(** [re.search(r, s, flags)]: the leftmost start at which [r] matches. *)
Fixpoint search_from (ignorecase : bool) (r : regex) (s : str) : option groups :=
  match match_re ignorecase r s [] (fun _ g => Some g) with
  | Some g => Some g
  | None =>
      match s with
      | [] => None
      | _ :: s' => search_from ignorecase r s'
      end
  end.

Definition re_search (r : regex) (s : str) (ignorecase : bool) : option match_obj :=
  option_map (fun g => {| m_ngroups := ngroups r; m_groups := g |})
             (search_from ignorecase r s).

End Matcher.

(** ** The tracker's text functions *)

Section Tracker.
Context {U : UnicodeDB}.

(** A [str] method called on what [match.group] returned: on [None] the
    attribute lookup raises. *)
Definition call {A} (method : str -> A) (o : option str) : result A :=
  match o with
  | Some s => Ok (method s)
  | None => Raise AttributeError
  end.

Definition spam_indicators : list str :=
  [py "linkedin.com"; py "indeed.com"; py "glassdoor.com"; py "monster.com";
   py "jobrapido"; py "jooble"; py "jobtome"; py "talent.com"; py "simplyhired";
   py "ziprecruiter"; py "newsletter"; py "job alert"; py "new jobs";
   py "recommended for you"; py "jobs matching"; py "daily digest"].

Definition is_job_alert (email_from subject : str) : bool :=
  let combined := lower (email_from ++ py " " ++ subject) in
  any_in spam_indicators combined.

Definition ws : atom := ASet [ISpace].
Definition word_or_space : atom := ASet [IWord; ISpace].
Definition separator : atom := ASet [IChar (ch "-"); IChar en_dash; IChar (ch "|")].

(** [@([\w-]+)\.(com|io|ai|co)] *)
Definition company_domain_re : regex :=
  lit "@" +> Group 1 (Rep (ASet [IWord; IChar (ch "-")]) 1 None true)
  +> lit "." +> Group 2 (lit "com" </> lit "io" </> lit "ai" </> lit "co").

(** [at\s+([\w\s]+?)(?:\s*[-–|]|$)] *)
Definition company_subject_re : regex :=
  lit "at" +> Rep ws 1 None true
  +> Group 1 (Rep word_or_space 1 None false)
  +> (Rep ws 0 None true +> Atom separator </> Eol).

(** The second half of [extract_company]: the subject line. *)
Definition company_from_subject (subject : str) : result str :=
  match re_search company_subject_re subject false with
  | Some m =>
      g <- group m 1 ;;
      s <- call strip g ;;
      Ok (title s)
  | None => Ok (py "Unknown")
  end.

(** The chain of [replace] calls that removes the recruiting platforms. *)
Definition strip_platforms (company : str) : str :=
  replace (py "myworkday") []
    (replace (py "workday") []
       (replace (py "lever") []
          (replace (py "greenhouse") [] company))).

Definition extract_company (email_from subject : str) : result str :=
  match re_search company_domain_re (lower email_from) false with
  | Some m =>
      g <- group m 1 ;;
      company <- call strip_platforms g ;;
      if truthy company && (2 <? length company)%nat
      then Ok (title company)
      else company_from_subject subject
  | None => company_from_subject subject
  end.

Definition rejection_kw : list str :=
  [py "not selected"; py "unfortunately"; py "other candidates";
   py "position filled"; py "not moving forward"; py "pursue other";
   py "not be considered"].
Definition assessment_kw : list str :=
  [py "codesignal"; py "hackerrank"; py "coding challenge";
   py "assessment"; py "technical test"].
Definition interview_kw : list str :=
  [py "interview"; py "schedule"; py "meet with"; py "phone screen";
   py "video call"; py "would like to speak"].
Definition applied_kw : list str :=
  [py "application received"; py "thank you for applying";
   py "confirm your application"; py "submitted successfully"].

(** The text [categorize_status] searches. *)
Definition haystack (subject body : str) : str :=
  let s := lower subject in
  let b := lower (if truthy body then slice_to 500 body else []) in
  s ++ py " " ++ b.

Definition categorize_status (subject body : str) : str :=
  let combined := haystack subject body in
  if any_in rejection_kw combined then py "Rejected"
  else if any_in assessment_kw combined then py "Assessment"
  else if any_in interview_kw combined then py "Interview"
  else if any_in applied_kw combined then py "Applied"
  else py "Other".

(** The pattern [(?:for\s+|role:\s*|position:\s* )([\w\s]{5,40}?)(?:\s+at|\s*[-–|]|$)]
    (a space is put before one closing parenthesis for the comment's sake). *)
Definition role_generic_re : regex :=
  (lit "for" +> Rep ws 1 None true
   </> lit "role:" +> Rep ws 0 None true
   </> lit "position:" +> Rep ws 0 None true)
  +> Group 1 (Rep word_or_space 5 (Some 40) false)
  +> (Rep ws 1 None true +> lit "at"
      </> Rep ws 0 None true +> Atom separator
      </> Eol).

(** [(software engineer|data engineer|ml engineer|machine learning|data scientist|backend|frontend|full.stack)] *)
Definition role_title_re : regex :=
  Group 1 (lit "software engineer" </> lit "data engineer" </> lit "ml engineer"
           </> lit "machine learning" </> lit "data scientist" </> lit "backend"
           </> lit "frontend" </> lit "full" +> Atom AAny +> lit "stack").

Definition patterns : list regex := [role_generic_re; role_title_re].

(** What [extract_role] returns on a match. *)
Definition role_of_match (m : match_obj) : result str :=
  g <- group m 1 ;;
  s <- call strip g ;;
  Ok (title s).

(** The [for pattern in patterns] loop of [extract_role]. *)
Fixpoint extract_role_loop (ps : list regex) (subject body : str) : result str :=
  match ps with
  | [] => Ok (py "Unknown")
  | pattern :: ps' =>
      match re_search pattern subject true with
      | Some m => role_of_match m
      | None =>
          if truthy body then
            match re_search pattern (slice_to 200 body) true with
            | Some m => role_of_match m
            | None => extract_role_loop ps' subject body
            end
          else extract_role_loop ps' subject body
      end
  end.

Definition extract_role (subject body : str) : result str :=
  extract_role_loop patterns subject body.

End Tracker.

(** ** Messages and the per-message loop of [analyze_applications] *)

(** One entry of [payload['parts']]: [mimeType] when the part has that key,
    and for [body] whether the part has the key and, if so, [body['data']]
    when that is present. *)
Record part := { mimeType : option str; part_body : option (option str) }.

(** [email['payload']]: the header list, [parts] when the key is present, and
    [body['data']] when both keys are. *)
Record payload := {
  headers : list (str * str);
  parts : option (list part);
  body_data : option str
}.

(** What [get_email_details] returns, a message as the Gmail API documents it
    for [format='full']: the payload, with its headers, and [internalDate],
    a decimal string read by [int], the milliseconds since the epoch. *)
Record email := { email_payload : payload; internalDate : Z }.

(** [{h['name']: h['value'] for h in hs}.get(name, default)]: a later header
    of the same name replaces an earlier one. *)
Fixpoint header_get (name default : str) (hs : list (str * str)) : str :=
  match hs with
  | [] => default
  | (n, v) :: hs' => header_get name (if str_eqb n name then v else default) hs'
  end.

(** The interpreter's surroundings: the [datetime] values with their order,
    [datetime.fromtimestamp(int(ms)/1000)] in the local time zone, which
    raises when the timestamp is out of the platform's range, and
    [base64.urlsafe_b64decode(data).decode('utf-8', errors='ignore')], which
    is [None] when the decoder raises. *)
Class Platform := {
  datetime : Type;
  fromtimestamp_ms : Z -> result datetime;
  datetime_leb : datetime -> datetime -> bool;
  b64decode_utf8 : str -> option str
}.

Section Analysis.
Context {U : UnicodeDB} {P : Platform}.

(** A value stored in an application record. *)
Inductive cell :=
| CDate (d : datetime)
| CStr (s : str).

(** A Python [dict] with [str] keys, in insertion order. *)
Definition record := list (str * cell).

(** The body of the [try] block, where any exception leaves [body] empty and
    ends the loop over the parts: the first [text/plain] part that has data.
    A part without [mimeType], and a [text/plain] part without [body], raise
    [KeyError]; data the decoder rejects raises too. *)
Fixpoint first_plain_part (ps : list part) : str :=
  match ps with
  | [] => []
  | p :: ps' =>
      match mimeType p with
      | None => []
      | Some mime =>
          if str_eqb mime (py "text/plain") then
            match part_body p with
            | None => []
            | Some None => first_plain_part ps'
            | Some (Some data) =>
                match b64decode_utf8 data with
                | Some text => text
                | None => []
                end
            end
          else first_plain_part ps'
      end
  end.

Definition extract_body (p : payload) : str :=
  match parts p with
  | Some ps => first_plain_part ps
  | None =>
      match body_data p with
      | Some data =>
          match b64decode_utf8 data with
          | Some text => text
          | None => []
          end
      | None => []
      end
  end.

Definition subject_of (e : email) : str :=
  header_get (py "Subject") [] (headers (email_payload e)).
Definition from_of (e : email) : str :=
  header_get (py "From") [] (headers (email_payload e)).

(** The [dict] appended to [self.applications]; the date is made before the
    dictionary, outside the [try], so a timestamp out of range raises. *)
Definition application (e : email) : result record :=
  let subject := subject_of e in
  let email_from := from_of e in
  let body := extract_body (email_payload e) in
  date <- fromtimestamp_ms (internalDate e) ;;
  company <- extract_company email_from subject ;;
  role <- extract_role subject body ;;
  Ok [(py "Date", CDate date);
      (py "Company", CStr company);
      (py "Role", CStr role);
      (py "Status", CStr (categorize_status subject body));
      (py "Subject", CStr subject)].

(** One turn of the loop on what [get_email_details] returned: [None] and job
    alerts are skipped ([continue]). *)
Definition process_email (applications : list record) (fetched : option email)
    : result (list record) :=
  match fetched with
  | None => Ok applications
  | Some e =>
      if is_job_alert (from_of e) (subject_of e) then Ok applications
      else
        app <- application e ;;
        Ok (applications ++ [app])
  end.

(** The [for] loop of [analyze_applications], over what [get_email_details]
    returned for each message id, from the tracker's [applications] so far
    (empty on a fresh tracker). *)
Fixpoint analyze_applications (applications : list record) (fetched : list (option email))
    : result (list record) :=
  match fetched with
  | [] => Ok applications
  | f :: fetched' =>
      applications' <- process_email applications f ;;
      analyze_applications applications' fetched'
  end.

(** ** The table of [generate_report] *)

(** A [DataFrame]: column names and rows; a cell is absent where the record
    had no such key. *)
Record DataFrame := { columns : list str; rows : list (list (option cell)) }.

Fixpoint dict_get (key : str) (r : record) : option cell :=
  match r with
  | [] => None
  | (k, v) :: r' => if str_eqb k key then Some v else dict_get key r'
  end.

Definition keys (r : record) : list str := map fst r.

(** Column names: the keys of the records in order of first appearance. *)
Fixpoint union_keys (seen : list str) (rs : list record) : list str :=
  match rs with
  | [] => seen
  | r :: rs' =>
      union_keys
        (fold_left (fun acc k => if existsb (str_eqb k) acc then acc else acc ++ [k])
                   (keys r) seen)
        rs'
  end.

(** [pd.DataFrame(records)] *)
Definition DataFrame_of (rs : list record) : DataFrame :=
  let cols := union_keys [] rs in
  {| columns := cols;
     rows := map (fun r => map (fun c => dict_get c r) cols) rs |}.

(** The cell of a row in column [by]. *)
Fixpoint cell_at (cols : list str) (by_ : str) (row : list (option cell)) : option cell :=
  match cols, row with
  | c :: cols', v :: row' => if str_eqb c by_ then v else cell_at cols' by_ row'
  | _, _ => None
  end.

(** [row1] may come before [row2] when sorting by a date column, latest
    first. *)
Definition date_desc (cols : list str) (by_ : str) (row1 row2 : list (option cell)) : bool :=
  match cell_at cols by_ row1, cell_at cols by_ row2 with
  | Some (CDate d1), Some (CDate d2) => datetime_leb d2 d1
  | _, _ => true
  end.

End Analysis.

(** * Vocabulary of the properties *)

(** ** Substrings across a joint *)

(** [s.endswith(u)] *)
Definition endswith (u s : str) : bool := startswith (rev u) (rev s).

(** [needle] lies across the joint of [x + " " + y]: it is [u + " " + v]
    with [x] ending in [u] and [y] starting with [v]. *)
Definition straddles (needle x y : str) : bool :=
  existsb
    (fun i =>
       match skipn i needle with
       | sp :: v => (sp =? 32)%N && startswith v y && endswith (firstn i needle) x
       | [] => false
       end)
    (seq 0 (length needle)).

(** [needle] could lie across a joint after [x]: a prefix of it that ends
    before one of its spaces is a suffix of [x]. *)
Definition ends_before_space (needle x : str) : bool :=
  existsb
    (fun i =>
       match skipn i needle with
       | sp :: _ => (sp =? 32)%N && endswith (firstn i needle) x
       | [] => false
       end)
    (seq 0 (length needle)).

(** ** What a successful match looks like *)

Definition within (hi : option nat) (n : nat) : Prop :=
  match hi with
  | None => True
  | Some h => n <= h
  end.

Section Matches.
Context {U : UnicodeDB}.
Variable ignorecase : bool.

(** [matches r w rest g g']: [r] can match the word [w] when [rest] follows
    it, turning the captures [g] into [g']. *)
Fixpoint matches (r : regex) (w rest : str) (g g' : groups) : Prop :=
  match r with
  | Empty => w = [] /\ g' = g
  | Atom a => exists c, w = [c] /\ atom_match ignorecase a c = true /\ g' = g
  | Seq r1 r2 =>
      exists w1 w2 g1,
        w = w1 ++ w2 /\ matches r1 w1 (w2 ++ rest) g g1 /\ matches r2 w2 rest g1 g'
  | Alt r1 r2 => matches r1 w rest g g' \/ matches r2 w rest g g'
  | Rep a lo hi _ =>
      Forall (fun c => atom_match ignorecase a c = true) w
      /\ lo <= length w /\ within hi (length w) /\ g' = g
  | Group n r1 => exists g1, matches r1 w rest g g1 /\ g' = (n, w) :: g1
  | Eol => w = [] /\ (rest = [] \/ rest = [10%N]) /\ g' = g
  end.

End Matches.

(** Whether group [n] is set on every way of matching [r]. *)
Fixpoint always_captures (n : nat) (r : regex) : bool :=
  match r with
  | Seq r1 r2 => always_captures n r1 || always_captures n r2
  | Alt r1 r2 => always_captures n r1 && always_captures n r2
  | Group k r1 => (k =? n)%nat || always_captures n r1
  | _ => false
  end.

(** ** Senders and subjects *)

Definition statuses : list str :=
  [py "Applied"; py "Interview"; py "Assessment"; py "Rejected"; py "Other"].

Definition tlds : list str := [py "com"; py "io"; py "ai"; py "co"].

Section CompanyVocabulary.
Context {U : UnicodeDB}.

(** A character of a domain label, [[\w-]]. *)
Definition is_label_char (c : char) : bool := is_word c || (c =? 45)%N.

Fixpoint skip_label (s : str) : str :=
  match s with
  | c :: s' => if is_label_char c then skip_label s' else s
  | [] => []
  end.

(** [s] starts with [@label.tld], the label non-empty and the tld one of com,
    io, ai, co. *)
Definition domain_here (s : str) : bool :=
  match s with
  | a :: ((c :: _) as s') =>
      (a =? 64)%N && is_label_char c &&
      match skip_label s' with
      | dot :: s'' => (dot =? 46)%N && existsb (fun t => startswith t s'') tlds
      | [] => false
      end
  | _ => false
  end.

(** [s] contains [@label.tld] somewhere. *)
Fixpoint has_domain (s : str) : bool :=
  domain_here s ||
  match s with
  | [] => false
  | _ :: s' => has_domain s'
  end.

(** [s] contains a lower-case [at] followed by a whitespace character. *)
Fixpoint contains_at_space (s : str) : bool :=
  match s with
  | [] => false
  | a :: s' =>
      match s' with
      | t :: c :: _ => (a =? 97)%N && (t =? 116)%N && is_space c
      | _ => false
      end || contains_at_space s'
  end.

End CompanyVocabulary.

(** ** Search orders *)

Fixpoint first_some {A} (l : list (option A)) : option A :=
  match l with
  | [] => None
  | Some a :: _ => Some a
  | None :: l' => first_some l'
  end.

Section RoleVocabulary.
Context {U : UnicodeDB}.

(** The search in the body: skipped when the body is empty, otherwise on its
    first 200 characters. *)
Definition body_search (pattern : regex) (body : str) : option match_obj :=
  if truthy body then re_search pattern (slice_to 200 body) true else None.

Definition role_result (found : option match_obj) : result str :=
  match found with
  | Some m => role_of_match m
  | None => Ok (py "Unknown")
  end.

(** The order C1 describes: both patterns on the subject, then both on the
    body. *)
Definition extract_role_subject_first (subject body : str) : result str :=
  role_result
    (first_some [re_search role_generic_re subject true;
                 re_search role_title_re subject true;
                 body_search role_generic_re body;
                 body_search role_title_re body]).

End RoleVocabulary.

(** The ordered table of categories and keyword sets, first match wins. *)
Fixpoint first_category (table : list (str * list str)) (hay : str) : str :=
  match table with
  | [] => py "Other"
  | (category, kws) :: table' =>
      if any_in kws hay then category else first_category table' hay
  end.

Definition status_table : list (str * list str) :=
  [(py "Rejected", rejection_kw); (py "Assessment", assessment_kw);
   (py "Interview", interview_kw); (py "Applied", applied_kw)].

(** ** Sample surroundings and messages *)

(** Datetimes as milliseconds since the epoch, from year 1 to year 9999 as
    [datetime] has them, payload data already text. *)
Definition utc_platform : Platform := {|
  datetime := Z;
  fromtimestamp_ms := fun ms =>
    if ((-62135596800000 <=? ms) && negb (253402300800000 <=? ms))%Z
    then Ok ms else Raise ValueError;
  datetime_leb := Z.leb;
  b64decode_utf8 := fun data => Some data
|}.

Section Events.
Context {U : UnicodeDB} {P : Platform}.

(** The records one fetched message adds. *)
Definition events_of (fetched : option email) : list record :=
  match process_email [] fetched with
  | Ok l => l
  | Raise _ => []
  end.

End Events.

Definition rejection_subject : str :=
  py "Unfortunately, we have decided to move forward with other candidates".
Definition applied_subject : str :=
  py "Thank you for applying to Acme - Software Engineer".

(** Three sample messages. *)
Definition noise_email : email := {|
  email_payload := {|
    headers := [(py "From", py "Indeed <jobs@indeed.com>");
                (py "From", py "jobs@indeed.com");
                (py "Subject", py "12 roles picked for you")];
    parts := None;
    body_data := None |};
  internalDate := 1700000000000 |}.

Definition rejection_email : email := {|
  email_payload := {|
    headers := [(py "Subject", rejection_subject);
                (py "From", py "Talent Team <talent@initech.com>")];
    parts := None;
    body_data := Some (py "Dear candidate, thank you for your interest.") |};
  internalDate := 1700000300000 |}.

Definition applied_email : email := {|
  email_payload := {|
    headers := [(py "From", py "no-reply@acme.com");
                (py "Subject", applied_subject);
                (py "X-Mailer", py "acme-ats")];
    parts := Some [ {| mimeType := Some (py "text/html");
                       part_body := Some (Some (py "<p>We got it.</p>")) |} ];
    body_data := None |};
  internalDate := 1700000200000 |}.

(** A message whose subject has [at], two spaces and a dash. *)
Definition blank_company_email : email := {|
  email_payload := {|
    headers := [(py "From", py "hr@acme.org");
                (py "Subject", py "Where we are at  - update")];
    parts := None;
    body_data := None |};
  internalDate := 1700000400000 |}.

(** The same message as [applied_email] for the loop: other headers, another
    payload layout. *)
Definition applied_email_again : email := {|
  email_payload := {|
    headers := [(py "Subject", py "draft");
                (py "To", py "me@example.org");
                (py "Subject", applied_subject);
                (py "From", py "no-reply@acme.com")];
    parts := None;
    body_data := None |};
  internalDate := 1700000200000 |}.

(** ** The report table *)

(** The working directory, as far as the report needs it: whether it has an
    [output] directory.  [generate_visualizations] makes one
    ([os.makedirs('output', exist_ok=True)]), but [main] calls it after
    [generate_report]. *)
Record working_dir := { has_output_dir : bool }.

Section ReportDefs.
Context {U : UnicodeDB} {P : Platform}.

(** The file [to_csv(filename, index=False)] writes: the column names, then
    one line per row, without the index. *)
Record csv := { header : list str; lines : list (list (option cell)) }.

Definition to_csv (df : DataFrame) : csv :=
  {| header := columns df; lines := rows df |}.

(** [df.sort_values(by, ascending=...)], a function of pandas. *)
Variable sort_values : str -> bool -> DataFrame -> DataFrame.

(** The file written and the frame returned, or [None] when there are no
    applications.  The file goes into [output/], which [generate_report]
    does not create: [to_csv] raises [OSError] when the directory is
    missing. *)
Definition generate_report (cwd : working_dir) (applications : list record)
    : result (option (csv * DataFrame)) :=
  match applications with
  | [] => Ok None
  | _ :: _ =>
      let df := DataFrame_of applications in
      let df := sort_values (py "Date") false df in
      if has_output_dir cwd then Ok (Some (to_csv df, df)) else Raise OSError
  end.

(** The cells of a record, in order. *)
Definition values (r : record) : list (option cell) :=
  map (fun kv => Some (snd kv)) r.

(** The first cell of [line1] is a date not earlier than the date that is the
    first cell of [line2]. *)
Definition not_earlier (line1 line2 : list (option cell)) : Prop :=
  exists d1 d2 rest1 rest2,
    line1 = Some (CDate d1) :: rest1
    /\ line2 = Some (CDate d2) :: rest2
    /\ datetime_leb d2 d1 = true.

Definition report_columns : list str :=
  [py "Date"; py "Company"; py "Role"; py "Status"; py "Subject"].

(** A record as [analyze_applications] builds it. *)
Definition is_application (r : record) : Prop :=
  exists date company role status subject,
    r = [(py "Date", CDate date); (py "Company", CStr company);
         (py "Role", CStr role); (py "Status", CStr status);
         (py "Subject", CStr subject)].

End ReportDefs.

(** A sort by insertion, to have one [sort_values] at hand. *)
Fixpoint insert_by {A} (leb : A -> A -> bool) (x : A) (l : list A) : list A :=
  match l with
  | [] => [x]
  | y :: l' => if leb x y then x :: l else y :: insert_by leb x l'
  end.

Definition insertion_sort {A} (leb : A -> A -> bool) (l : list A) : list A :=
  fold_right (insert_by leb) [] l.

Definition sort_values_by_insertion {P : Platform}
    (by_ : str) (ascending : bool) (df : DataFrame) : DataFrame :=
  {| columns := columns df;
     rows := insertion_sort
               (fun row1 row2 =>
                  if ascending then date_desc (columns df) by_ row2 row1
                  else date_desc (columns df) by_ row1 row2)
               (rows df) |}.

(** ** The mail service and the message ids of [analyze_applications] *)

(** The Gmail client and the clock.  [messages_list q n] is
    [service.users().messages().list(userId='me', q=q, maxResults=n).execute()]:
    [None] when the call raises, otherwise the ids of the response's
    [messages] entry when it has one.  [messages_get] is the [get] call with
    [format='full'], [None] when it raises.  [cutoff_date months] is
    [(datetime.now() - timedelta(days=30*months)).strftime('%Y/%m/%d')]. *)
Class GmailService := {
  messages_list : str -> nat -> option (option (list str));
  messages_get : str -> option email;
  cutoff_date : nat -> str
}.

(** A literal between double quotes. *)
Definition quoted (s : string) : str := 34%N :: py s ++ [34%N].

Section Fetching.
Context {G : GmailService}.

(** [search_emails]: the ids found, and the empty list both when the
    response has no [messages] and when the call raises. *)
Definition search_emails (query : str) (max_results : nat) : list str :=
  match messages_list query max_results with
  | Some (Some messages) => messages
  | Some None => []
  | None => []
  end.


(** The four searches of [analyze_applications]. *)
Definition queries (months : nat) : list str :=
  let after := py "after:" ++ cutoff_date months in
  [after ++ py " (" ++ quoted "application received" ++ py " OR "
         ++ quoted "thank you for applying" ++ py ")";
   after ++ py " (" ++ quoted "not selected" ++ py " OR "
         ++ quoted "unfortunately" ++ py " OR "
         ++ quoted "other candidates" ++ py ")";
   after ++ py " (interview OR " ++ quoted "schedule a call"
         ++ py " OR assessment)";
   after ++ py " (codesignal OR hackerrank)"].

End Fetching.

(** A [set] of ids, as the list of its elements in the order they came in.
    Python walks a set in an order of its own, so what is proved of the loop
    over [all_ids] is proved for every order of this list. *)
Definition set_add (i : str) (s : list str) : list str :=
  if existsb (str_eqb i) s then s else s ++ [i].

(** [s.update(new)] *)
Definition set_update (s new : list str) : list str :=
  fold_left (fun acc i => set_add i acc) new s.

Section Collecting.
Context {U : UnicodeDB} {P : Platform} {G : GmailService}.

(** [all_ids] after the loop over the queries ([max_results] keeps its
    default, 200). *)
Definition all_ids (months : nat) : list str :=
  fold_left (fun acc query => set_update acc (search_emails query 200))
            (queries months) [].


End Collecting.

(** ** The key metrics of [generate_report] *)

(** The quotient [a / b] kept as its two operands; [None] is
    [ZeroDivisionError]. *)
Definition true_div (a b : nat) : option (nat * nat) :=
  if (b =? 0)%nat then None else Some (a, b).

(** What the key-metrics block prints, each percentage as the quotient it is
    computed from. *)
Inductive report_line :=
| KeyMetrics
| ApplicationsSent (n : nat)
| Rejections (n : nat) (of_applied : nat * nat)
| Interviews (n : nat) (of_applied : nat * nat)
| InterviewRate (of_all : nat * nat).

Section Metrics.
Context {P : Platform}.

(** Whether the Status cell of a row satisfies [p]; a cell that is not a
    string does not. *)
Definition status_is (cols : list str) (p : str -> bool) (row : list (option cell)) : bool :=
  match cell_at cols (py "Status") row with
  | Some (CStr s) => p s
  | _ => false
  end.

(** [df[mask on Status].shape[0]] *)
Definition status_count (df : DataFrame) (p : str -> bool) : nat :=
  length (filter (status_is (columns df) p) (rows df)).

(** [s in values], for [isin]. *)
Definition isin (values : list str) (s : str) : bool :=
  existsb (str_eqb s) values.

(** The conversion metrics at the end of [generate_report]; [None] is an
    exception: [KeyError] when the frame has no Status column,
    [ZeroDivisionError] from a division. *)
Definition key_metrics (df : DataFrame) : option (list report_line) :=
  if existsb (str_eqb (py "Status")) (columns df) then
    let applied := status_count df (fun s => str_eqb s (py "Applied")) in
    let rejected := status_count df (fun s => str_eqb s (py "Rejected")) in
    let interview := status_count df (isin [py "Interview"; py "Assessment"]) in
    if (0 <? applied)%nat then
      match true_div rejected applied with
      | None => None
      | Some rejected_rate =>
          match true_div interview applied with
          | None => None
          | Some interview_per_applied =>
              let printed :=
                [KeyMetrics; ApplicationsSent applied;
                 Rejections rejected rejected_rate;
                 Interviews interview interview_per_applied] in
              if (0 <? interview)%nat then
                match true_div interview (length (rows df)) with
                | None => None
                | Some rate => Some (printed ++ [InterviewRate rate])
                end
              else Some printed
          end
      end
    else Some []
  else None.

End Metrics.

(** ** More vocabulary *)

Section MoreVocabulary.
Context {U : UnicodeDB}.

(** The fetched messages that are stored: fetched at all, and no job
    alert. *)
Definition kept_messages (fetched : list (option email)) : list email :=
  flat_map
    (fun f =>
       match f with
       | Some e => if is_job_alert (from_of e) (subject_of e) then [] else [e]
       | None => []
       end)
    fetched.

End MoreVocabulary.

(** Whether a pattern has a capturing group. *)
Fixpoint has_group (r : regex) : bool :=
  match r with
  | Seq r1 r2 | Alt r1 r2 => has_group r1 || has_group r2
  | Group _ _ => true
  | _ => false
  end.

(** Every character is ASCII. *)
Definition ascii_str (s : str) : Prop := Forall (fun c => is_ascii c = true) s.

(** A mail service for examples: two searches answer, one has no
    [messages], one raises; the id ["m4"] cannot be fetched. *)
Definition sample_service : GmailService := {|
  messages_list := fun query _ =>
    if contains (py "application received") query
    then Some (Some [py "m1"; py "m2"; py "m1"])
    else if contains (py "unfortunately") query
    then Some (Some [py "m3"; py "m2"; py "m4"])
    else if contains (py "interview") query then Some None
    else None;
  messages_get := fun msg_id =>
    if str_eqb msg_id (py "m1") then Some applied_email
    else if str_eqb msg_id (py "m2") then Some noise_email
    else if str_eqb msg_id (py "m3") then Some rejection_email
    else None;
  cutoff_date := fun _ => py "2026/05/07"
|}.

(** ** Bodies, counts and lengths *)

Section ExtraVocabulary.
Context {P : Platform}.

(** A part the loop over [parts] passes over: one that is not [text/plain],
    or a [text/plain] one whose body has no data. *)
Definition passed_over (q : part) : Prop :=
  (exists mime, mimeType q = Some mime /\ str_eqb mime (py "text/plain") = false)
  \/ (mimeType q = Some (py "text/plain") /\ part_body q = Some None).

(** A part on which the loop raises [KeyError]: one without [mimeType], or a
    [text/plain] one without [body]. *)
Definition lacks_key (q : part) : Prop :=
  mimeType q = None
  \/ (mimeType q = Some (py "text/plain") /\ part_body q = None).

(** The timestamp of the message can be made a date. *)
Definition date_ok (e : email) : Prop :=
  exists d, fromtimestamp_ms (internalDate e) = Ok d.

(** What the decoder gives, the empty body when it raises. *)
Definition decoded (data : str) : str :=
  match b64decode_utf8 data with
  | Some text => text
  | None => []
  end.

(** A record as the loop builds it, its status among the five. *)
Definition is_tracked (r : record) : Prop :=
  exists date company role status subject,
    r = [(py "Date", CDate date); (py "Company", CStr company);
         (py "Role", CStr role); (py "Status", CStr status);
         (py "Subject", CStr subject)]
    /\ In status statuses.

End ExtraVocabulary.

Section LoopVocabulary.
Context {U : UnicodeDB} {P : Platform}.

(** What was fetched lets the loop go on: nothing, a job alert (skipped
    before its date is made), or a message whose date can be made. *)
Definition goes_on (f : option email) : Prop :=
  match f with
  | Some e => is_job_alert (from_of e) (subject_of e) = true \/ date_ok e
  | None => True
  end.

End LoopVocabulary.

(** The four classes of status the metrics count. *)
Definition status_classes : list (str -> bool) :=
  [fun s => str_eqb s (py "Applied");
   fun s => str_eqb s (py "Rejected");
   isin [py "Interview"; py "Assessment"];
   fun s => str_eqb s (py "Other")].

(** The longest word a pattern can match, when there is a bound. *)
Fixpoint max_len (r : regex) : option nat :=
  match r with
  | Empty | Eol => Some 0
  | Atom _ => Some 1
  | Seq r1 r2 =>
      match max_len r1, max_len r2 with
      | Some a, Some b => Some (a + b)
      | _, _ => None
      end
  | Alt r1 r2 =>
      match max_len r1, max_len r2 with
      | Some a, Some b => Some (Nat.max a b)
      | _, _ => None
      end
  | Rep _ _ hi _ => hi
  | Group _ r1 => max_len r1
  end.

(** A multipart payload: an HTML part, a plain part without data, the plain
    text, and a second plain text; the payload has body data of its own. *)
Definition multipart_payload : payload := {|
  headers := [];
  parts := Some [ {| mimeType := Some (py "text/html");
                     part_body := Some (Some (py "<p>Hi</p>")) |};
                  {| mimeType := Some (py "text/plain"); part_body := Some None |};
                  {| mimeType := Some (py "text/plain");
                     part_body := Some (Some (py "Hi")) |};
                  {| mimeType := Some (py "text/plain");
                     part_body := Some (Some (py "Bye")) |} ];
  body_data := Some (py "unused") |}.

(** A multipart payload whose first plain part has no [body]. *)
Definition broken_payload : payload := {|
  headers := [];
  parts := Some [ {| mimeType := Some (py "text/html");
                     part_body := Some (Some (py "<p>Hi</p>")) |};
                  {| mimeType := Some (py "text/plain"); part_body := None |};
                  {| mimeType := Some (py "text/plain");
                     part_body := Some (Some (py "Hi")) |} ];
  body_data := None |}.

(** The applied message with a body that speaks of an interview. *)
Definition applied_email_interview_body : email := {|
  email_payload := {|
    headers := [(py "From", py "no-reply@acme.com");
                (py "Subject", applied_subject)];
    parts := None;
    body_data := Some (py "We would like to schedule an interview.") |};
  internalDate := 1700000200000 |}.

(** The applied message stamped with the first millisecond of year 10000. *)
Definition applied_email_year_10000 : email := {|
  email_payload := {|
    headers := [(py "From", py "no-reply@acme.com");
                (py "Subject", applied_subject)];
    parts := None;
    body_data := None |};
  internalDate := 253402300800000 |}.

(** The frame of the three sample messages and one that could not be
    fetched. *)
Definition sample_frame : @DataFrame utc_platform :=
  DataFrame_of
    (flat_map (@events_of plain_db utc_platform)
       [Some applied_email; None; Some noise_email; Some rejection_email]).

(** * Properties *)

(** ** Strings *)

Lemma startswith_iff (p s : str) :
  startswith p s = true <-> exists q, s = p ++ q.
Proof.
  revert s; induction p as [|a p IH]; intros s; simpl.
  - split; [intros _; now exists s | reflexivity].
  - destruct s as [|b s].
    + split; [discriminate | intros [q Hq]; discriminate].
    + rewrite andb_true_iff, N.eqb_eq, IH. split.
      * intros [-> [q ->]]. now exists q.
      * intros [q Hq]. injection Hq as -> ->. split; [reflexivity | now exists q].
Qed.

Lemma startswith_app (p q : str) : startswith p (p ++ q) = true.
Proof. apply startswith_iff. now exists q. Qed.

Lemma contains_iff (needle hay : str) :
  contains needle hay = true <-> exists p q, hay = p ++ needle ++ q.
Proof.
  induction hay as [|c hay IH]; simpl.
  - rewrite orb_false_r, startswith_iff. split.
    + intros [q Hq]. now exists [], q.
    + intros (p & q & H). destruct p; [now exists q | discriminate].
  - rewrite orb_true_iff, startswith_iff, IH. split.
    + intros [[q Hq] | (p & q & Hq)].
      * now exists [], q.
      * exists (c :: p), q. now rewrite Hq.
    + intros (p & q & Hq). destruct p as [|c' p].
      * left. now exists q.
      * right. injection Hq as _ ->. now exists p, q.
Qed.

Lemma contains_app_l (needle x y : str) :
  contains needle x = true -> contains needle (x ++ y) = true.
Proof.
  rewrite !contains_iff. intros (p & q & ->).
  exists p, (q ++ y). now rewrite <- !app_assoc.
Qed.

Lemma contains_app_r (needle x y : str) :
  contains needle y = true -> contains needle (x ++ y) = true.
Proof.
  rewrite !contains_iff. intros (p & q & ->).
  exists (x ++ p), q. now rewrite <- !app_assoc.
Qed.

Lemma endswith_iff (u s : str) :
  endswith u s = true <-> exists p, s = p ++ u.
Proof.
  unfold endswith. rewrite startswith_iff. split.
  - intros [q Hq]. exists (rev q).
    rewrite <- (rev_involutive s), Hq, rev_app_distr. now rewrite rev_involutive.
  - intros [p ->]. exists (rev p). apply rev_app_distr.
Qed.

Lemma skipn_length_app (u w : str) : skipn (length u) (u ++ w) = w.
Proof. induction u; simpl; auto. Qed.

Lemma firstn_length_app (u w : str) : firstn (length u) (u ++ w) = u.
Proof. induction u; simpl; [reflexivity | now f_equal]. Qed.

Lemma straddles_iff (needle x y : str) :
  straddles needle x y = true <->
  exists u v, needle = u ++ 32%N :: v /\ endswith u x = true /\ startswith v y = true.
Proof.
  unfold straddles. rewrite existsb_exists. split.
  - intros (i & Hi & H).
    destruct (skipn i needle) as [|sp v] eqn:Hs; [discriminate|].
    rewrite !andb_true_iff, N.eqb_eq in H. destruct H as [[-> Hv] Hu].
    exists (firstn i needle), v. repeat split; auto.
    rewrite <- (firstn_skipn i needle) at 1. f_equal. exact Hs.
  - intros (u & v & -> & Hu & Hv). exists (length u). split.
    + apply in_seq. rewrite length_app. simpl. lia.
    + rewrite skipn_length_app, firstn_length_app, N.eqb_refl, Hu, Hv.
      reflexivity.
Qed.

Lemma contains_joint (needle x y : str) :
  contains needle (x ++ 32%N :: y) =
  contains needle x || contains needle y || straddles needle x y.
Proof.
  apply eq_true_iff_eq.
  rewrite !orb_true_iff, straddles_iff. split.
  - rewrite !contains_iff. intros (p & q & H).
    apply app_eq_app in H. destruct H as [l [[Hx Hn] | [Hp Hn]]].
    + apply app_eq_app in Hn.
      destruct Hn as [l2 [[Hn Hy] | [Hl Hq]]].
      * destruct l2 as [|c l2].
        -- left; left. exists p, []. rewrite app_nil_r in *. now subst.
        -- simpl in Hy. injection Hy as Hc Hy. right. exists l, l2.
           subst c. split; [exact Hn | split].
           ++ apply endswith_iff. now exists p.
           ++ rewrite Hy. apply startswith_app.
      * left; left. exists p, l2. subst. reflexivity.
    + destruct l as [|c l].
      * simpl in Hn. destruct needle as [|c n].
        -- left; left. exists x, []. now rewrite app_nil_r.
        -- simpl in Hn. injection Hn as Hc Hn. right. exists [], n.
           subst c. split; [reflexivity | split].
           ++ apply endswith_iff. exists x. now rewrite app_nil_r.
           ++ rewrite Hn. apply startswith_app.
      * simpl in Hn. injection Hn as _ Hn. left; right. now exists l, q.
  - intros [[H | H] | (u & v & -> & Hu & Hv)].
    + now apply contains_app_l.
    + apply (contains_app_r _ (x ++ [32%N])) in H. now rewrite <- app_assoc in H.
    + apply contains_iff.
      apply endswith_iff in Hu. destruct Hu as [p ->].
      apply startswith_iff in Hv. destruct Hv as [q ->].
      exists p, q. now rewrite <- !app_assoc.
Qed.

(** ** The noise filter *)

Section NoiseFilter.
Context {U : UnicodeDB}.

Lemma lower_app (a b : str) : lower (a ++ b) = lower a ++ lower b.
Proof. apply flat_map_app. Qed.

Lemma combined_lower (a b : str) :
  lower (a ++ py " " ++ b) = lower a ++ 32%N :: lower b.
Proof. now rewrite !lower_app. Qed.

Lemma existsb_orb {A} (f g : A -> bool) (l : list A) :
  existsb (fun x => f x || g x) l = existsb f l || existsb g l.
Proof.
  induction l as [|x l IH]; simpl; [reflexivity|].
  rewrite IH. destruct (f x), (g x), (existsb f l); reflexivity.
Qed.

Lemma existsb_pointwise {A} (f g : A -> bool) (l : list A) :
  (forall x, f x = g x) -> existsb f l = existsb g l.
Proof. intros E. induction l as [|x l IH]; simpl; [|rewrite E, IH]; reflexivity. Qed.

Lemma any_in_joint (kws : list str) (x y : str) :
  any_in kws (x ++ 32%N :: y) =
  any_in kws x || any_in kws y || existsb (fun kw => straddles kw x y) kws.
Proof.
  unfold any_in. rewrite <- !existsb_orb. apply existsb_pointwise.
  intros kw. apply contains_joint.
Qed.

Lemma is_job_alert_split (email_from subject : str) :
  is_job_alert email_from subject =
  any_in spam_indicators (lower email_from)
  || any_in spam_indicators (lower subject)
  || existsb (fun ind => straddles ind (lower email_from) (lower subject))
             spam_indicators.
Proof. unfold is_job_alert. rewrite combined_lower. apply any_in_joint. Qed.

(** C2, as the code has it: [is_job_alert] answers true exactly when the
    lower-cased sender contains a denylisted substring, or the lower-cased
    subject does, or a denylisted phrase lies across the single space that
    joins the two (the end of the sender, the space, the start of the
    subject). *)
Theorem is_job_alert_joint (email_from subject : str) :
  is_job_alert email_from subject =
  any_in spam_indicators (lower email_from)
  || any_in spam_indicators (lower subject)
  || existsb (fun ind => straddles ind (lower email_from) (lower subject))
             spam_indicators.
Proof. apply is_job_alert_split. Qed.

End NoiseFilter.

(** C2 as stated fails: neither ["new"] nor ["jobs"] contains a denylisted
    substring, yet the pair is an alert, because ["new jobs"] is denylisted
    and appears once the two are joined. *)
Lemma is_job_alert_clean_fields_counterexample :
  ~ (forall email_from subject : str,
        any_in spam_indicators (@lower plain_db email_from) = false ->
        any_in spam_indicators (@lower plain_db subject) = false ->
        @is_job_alert plain_db email_from subject = false).
Proof.
  intros H.
  assert (E : @is_job_alert plain_db (py "new") (py "jobs") = false)
    by (apply H; vm_compute; reflexivity).
  vm_compute in E. discriminate E.
Qed.

(** ** What a successful match looks like *)

Section MatcherFacts.
Context {U : UnicodeDB}.
Variable ignorecase : bool.

Lemma match_rep_sound (A : Type) (a : atom) (greedy : bool) (s : str) :
  forall (lo : nat) (hi : option nat) (k : str -> option A) (x : A),
    match_rep ignorecase a greedy lo hi k s = Some x ->
    exists w rest,
      s = w ++ rest
      /\ Forall (fun c => atom_match ignorecase a c = true) w
      /\ lo <= length w /\ within hi (length w) /\ k rest = Some x.
Proof.
  assert (stop : forall (lo : nat) (hi : option nat) (k : str -> option A) s x,
             (if (lo =? 0)%nat then k s else None) = Some x ->
             exists w rest,
               s = w ++ rest
               /\ Forall (fun c => atom_match ignorecase a c = true) w
               /\ lo <= length w /\ within hi (length w) /\ k rest = Some x).
  { intros lo hi k s0 x H. destruct (Nat.eqb_spec lo 0); [|discriminate].
    exists [], s0. repeat split; auto; simpl; [lia|].
    destruct hi; simpl; lia. }
  assert (more : forall c s' (lo : nat) (hi : option nat) (k : str -> option A) x,
             atom_match ignorecase a c && room hi = true ->
             (exists w rest,
                 s' = w ++ rest
                 /\ Forall (fun c => atom_match ignorecase a c = true) w
                 /\ pred lo <= length w /\ within (one_less hi) (length w)
                 /\ k rest = Some x) ->
             exists w rest,
               c :: s' = w ++ rest
               /\ Forall (fun c => atom_match ignorecase a c = true) w
               /\ lo <= length w /\ within hi (length w) /\ k rest = Some x).
  { intros c s' lo hi k x E (w & rest & -> & Hw & Hlo & Hhi & Hk).
    apply andb_true_iff in E. destruct E as [Ec Er].
    exists (c :: w), rest. repeat split; auto; simpl; [lia|].
    destruct hi as [h|]; simpl in *; [|exact I].
    apply Nat.ltb_lt in Er. lia. }
  induction s as [|c s IH]; intros lo hi k x H; simpl in H.
  - now apply stop.
  - destruct (atom_match ignorecase a c && room hi) eqn:E; [|now apply stop].
    destruct greedy.
    + destruct (match_rep ignorecase a true (pred lo) (one_less hi) k s) eqn:R.
      * injection H as ->. apply more; auto.
      * now apply stop.
    + destruct (if (lo =? 0)%nat then k (c :: s) else None) eqn:S.
      * injection H as ->. now apply stop.
      * apply more; auto.
Qed.

Lemma match_re_sound (A : Type) (r : regex) :
  forall (s : str) (g : groups) (k : str -> groups -> option A) (x : A),
    match_re ignorecase r s g k = Some x ->
    exists w rest g',
      s = w ++ rest /\ matches ignorecase r w rest g g' /\ k rest g' = Some x.
Proof.
  induction r as [|a|r1 IH1 r2 IH2|r1 IH1 r2 IH2|a lo hi greedy|n r1 IH1|];
    intros s g k x H; simpl in H.
  - exists [], s, g. simpl. tauto.
  - destruct s as [|c s]; [discriminate|].
    destruct (atom_match ignorecase a c) eqn:E; [|discriminate].
    exists [c], s, g. simpl. split; [reflexivity|]. split; [|exact H].
    exists c. tauto.
  - apply IH1 in H. destruct H as (w1 & rest1 & g1 & -> & M1 & H).
    apply IH2 in H. destruct H as (w2 & rest & g' & -> & M2 & H).
    exists (w1 ++ w2), rest, g'. rewrite <- app_assoc. simpl.
    split; [reflexivity|]. split; [|exact H].
    exists w1, w2, g1. tauto.
  - destruct (match_re ignorecase r1 s g k) eqn:E.
    + injection H as ->. apply IH1 in E.
      destruct E as (w & rest & g' & -> & M & H). exists w, rest, g'. simpl. tauto.
    + apply IH2 in H.
      destruct H as (w & rest & g' & -> & M & H). exists w, rest, g'. simpl. tauto.
  - apply match_rep_sound in H.
    destruct H as (w & rest & -> & Hw & Hlo & Hhi & H).
    exists w, rest, g. simpl. tauto.
  - apply IH1 in H. destruct H as (w & rest & g1 & -> & M & H).
    rewrite length_app, Nat.add_sub, firstn_length_app in H.
    exists w, rest, ((n, w) :: g1). simpl.
    split; [reflexivity|]. split; [|exact H]. exists g1. tauto.
  - destruct s as [|c [|c' s]]; try discriminate.
    + exists [], [], g. simpl. tauto.
    + destruct (N.eqb_spec c 10); [subst c|discriminate].
      exists [], [10%N], g. simpl. tauto.
Qed.

(** A successful search found the pattern somewhere in the string. *)
Lemma search_from_sound (r : regex) (s : str) (g : groups) :
  search_from ignorecase r s = Some g ->
  exists pre w post, s = pre ++ w ++ post /\ matches ignorecase r w post [] g.
Proof.
  induction s as [|c s IH]; simpl.
  - destruct (match_re ignorecase r [] [] (fun _ g0 => Some g0)) eqn:E; [|discriminate].
    intros [= ->]. apply match_re_sound in E.
    destruct E as (w & rest & g' & Hs & M & [= ->]). now exists [], w, rest.
  - destruct (match_re ignorecase r (c :: s) [] (fun _ g0 => Some g0)) eqn:E.
    + intros [= ->]. apply match_re_sound in E.
      destruct E as (w & rest & g' & Hs & M & [= ->]). now exists [], w, rest.
    + intros H. apply IH in H. destruct H as (pre & w & post & -> & M).
      now exists (c :: pre), w, post.
Qed.

End MatcherFacts.

(** ** Groups that every match captures *)

Section Captures.
Context {U : UnicodeDB}.

Lemma matches_captures (ignorecase : bool) (n : nat) (r : regex) :
  forall w rest g g',
    matches ignorecase r w rest g g' ->
    always_captures n r = true \/ lookup_group n g <> None ->
    lookup_group n g' <> None.
Proof.
  induction r as [|a|r1 IH1 r2 IH2|r1 IH1 r2 IH2|a lo hi greedy|k r1 IH1|];
    intros w rest g g' M H; simpl in M, H.
  - destruct M as [_ ->]. destruct H; [discriminate | assumption].
  - destruct M as (c & _ & _ & ->). destruct H; [discriminate | assumption].
  - destruct M as (w1 & w2 & g1 & _ & M1 & M2).
    destruct H as [H | H].
    + apply orb_true_iff in H. destruct H as [H | H].
      * eapply IH2; [exact M2 | right]. eapply IH1; [exact M1 | now left].
      * eapply IH2; [exact M2 | now left].
    + eapply IH2; [exact M2 | right]. eapply IH1; [exact M1 | now right].
  - destruct H as [H | H].
    + apply andb_true_iff in H. destruct H as [H1 H2].
      destruct M as [M | M]; [eapply IH1 | eapply IH2]; eauto.
    + destruct M as [M | M]; [eapply IH1 | eapply IH2]; eauto.
  - destruct M as (_ & _ & _ & ->). destruct H; [discriminate | assumption].
  - destruct M as (g1 & M & ->). simpl.
    destruct (Nat.eqb_spec k n) as [E | E]; [discriminate|].
    simpl in H. eapply IH1; [exact M | exact H].
  - destruct M as (_ & _ & ->). destruct H; [discriminate | assumption].
Qed.

(** On a match of a pattern whose group [n] is always captured,
    [match.group(n)] is a string. *)
Lemma re_search_group (r : regex) (s : str) (ignorecase : bool) (m : match_obj) (n : nat) :
  always_captures n r = true ->
  (n <=? ngroups r)%nat = true ->
  re_search r s ignorecase = Some m ->
  exists v, group m n = Ok (Some v).
Proof.
  intros C N H. unfold re_search in H.
  destruct (search_from ignorecase r s) as [g|] eqn:E; [|discriminate].
  injection H as <-. unfold group. simpl. rewrite N.
  apply search_from_sound in E. destruct E as (pre & w & post & _ & M).
  pose proof (@matches_captures ignorecase n r _ _ _ _ M (or_introl C)) as L.
  destruct (lookup_group n g) as [v|]; [now exists v | contradiction].
Qed.

Lemma role_of_match_ok (r : regex) (s : str) (m : match_obj) :
  always_captures 1 r = true ->
  (1 <=? ngroups r)%nat = true ->
  re_search r s true = Some m ->
  exists v, role_of_match m = Ok v.
Proof.
  intros C N H. destruct (@re_search_group r s true m 1 C N H) as [v Hv].
  unfold role_of_match. rewrite Hv. simpl. eauto.
Qed.

Lemma company_from_subject_ok (subject : str) :
  exists v, company_from_subject subject = Ok v.
Proof.
  unfold company_from_subject.
  destruct (re_search company_subject_re subject false) as [m|] eqn:E; [|eauto].
  destruct (@re_search_group company_subject_re subject false m 1 eq_refl eq_refl E)
    as [v ->].
  simpl. eauto.
Qed.

Lemma extract_company_ok (email_from subject : str) :
  exists v, extract_company email_from subject = Ok v.
Proof.
  unfold extract_company.
  destruct (re_search company_domain_re (lower email_from) false) as [m|] eqn:E;
    [|apply company_from_subject_ok].
  destruct (@re_search_group company_domain_re _ false m 1 eq_refl eq_refl E)
    as [v ->].
  simpl.
  destruct (truthy (strip_platforms v) && (2 <? length (strip_platforms v))%nat);
    [eauto | apply company_from_subject_ok].
Qed.

Lemma extract_role_ok (subject body : str) :
  exists v, extract_role subject body = Ok v.
Proof.
  unfold extract_role, patterns, extract_role_loop.
  repeat match goal with
  | |- exists v, match re_search ?r ?s true with _ => _ end = Ok v =>
      let E := fresh "E" in
      destruct (re_search r s true) eqn:E;
      [exact (@role_of_match_ok r s _ eq_refl eq_refl E)|]
  | |- exists v, (if truthy body then _ else _) = Ok v =>
      destruct (truthy body)
  end; eauto.
Qed.

End Captures.

(** ** Totality *)

Section Totality.
Context {U : UnicodeDB}.

Lemma categorize_status_closed (subject body : str) :
  In (categorize_status subject body) statuses.
Proof.
  unfold categorize_status, statuses.
  destruct (any_in rejection_kw _); [simpl; tauto|].
  destruct (any_in assessment_kw _); [simpl; tauto|].
  destruct (any_in interview_kw _); [simpl; tauto|].
  destruct (any_in applied_kw _); simpl; tauto.
Qed.

(** C9: on every pair of strings the four core functions return a value and
    raise nothing: [is_job_alert] a boolean, [categorize_status] one of the
    five statuses, [extract_company] and [extract_role] a string (group 1 of
    each pattern is captured on every match, so no method is ever called on
    [None]). *)
Theorem core_functions_total (a b : str) :
  (exists r, is_job_alert a b = r)
  /\ (exists v, extract_company a b = Ok v)
  /\ (exists v, extract_role a b = Ok v)
  /\ In (categorize_status a b) statuses.
Proof.
  split; [now exists (is_job_alert a b)|].
  split; [apply extract_company_ok|].
  split; [apply extract_role_ok | apply categorize_status_closed].
Qed.

End Totality.

(** ** The company extractor on senders without a domain *)

Section CompanyFacts.
Context {U : UnicodeDB}.

Lemma matches_lit_of (l w rest : str) (g g' : groups) :
  matches false (lit_of l) w rest g g' -> w = l /\ g' = g.
Proof.
  revert w g g'. induction l as [|c l IH]; intros w g g' M.
  - exact M.
  - destruct l as [|c' l].
    + destruct M as (d & -> & E & ->). simpl in E.
      apply N.eqb_eq in E. now subst.
    + destruct M as (w1 & w2 & g1 & -> & (d & -> & E & ->) & M2).
      simpl in E. apply N.eqb_eq in E. subst d.
      apply IH in M2. destruct M2 as [-> ->]. auto.
Qed.

Lemma contains_at_space_found (pre s : str) (c : char) :
  is_space c = true ->
  contains_at_space (pre ++ 97%N :: 116%N :: c :: s) = true.
Proof.
  intros Hc. induction pre as [|d pre IH].
  - simpl. now rewrite Hc.
  - change (contains_at_space ((d :: pre) ++ 97%N :: 116%N :: c :: s))
      with (match pre ++ 97%N :: 116%N :: c :: s with
            | t :: c0 :: _ => (d =? 97)%N && (t =? 116)%N && is_space c0
            | _ => false
            end || contains_at_space (pre ++ 97%N :: 116%N :: c :: s)).
    rewrite IH. apply orb_true_r.
Qed.

Lemma company_subject_re_needs_at (subject : str) (g : groups) :
  search_from false company_subject_re subject = Some g ->
  contains_at_space subject = true.
Proof.
  intros H. apply search_from_sound in H.
  destruct H as (pre & w & post & -> & M).
  unfold company_subject_re in M.
  destruct M as (w1 & w2 & g1 & -> & M1 & M2).
  apply matches_lit_of in M1. destruct M1 as [-> ->].
  destruct M2 as (w2' & w3 & g2 & -> & (Hws & Hlen & _ & ->) & _).
  destruct w2' as [|c w2']; [simpl in Hlen; lia|].
  inversion Hws as [|? ? Hc _]; subst.
  simpl in Hc. rewrite orb_false_r in Hc.
  change (py "at") with [97%N; 116%N]. simpl.
  now apply contains_at_space_found.
Qed.

End CompanyFacts.

Section DomainFacts.
Context {U : UnicodeDB}.

Lemma skip_label_run (label rest : str) :
  Forall (fun c => is_label_char c = true) label ->
  skip_label (label ++ 46%N :: rest) = 46%N :: rest.
Proof.
  induction 1 as [|c label Hc _ IH]; simpl.
  - reflexivity.
  - now rewrite Hc.
Qed.

Lemma domain_here_found (label tld post : str) :
  label <> [] ->
  Forall (fun c => is_label_char c = true) label ->
  In tld tlds ->
  domain_here (64%N :: label ++ 46%N :: tld ++ post) = true.
Proof.
  intros Hne Hl Ht. destruct label as [|c label]; [contradiction|].
  unfold domain_here.
  change ((c :: label) ++ 46%N :: tld ++ post)
    with (c :: (label ++ 46%N :: tld ++ post)).
  change (c :: (label ++ 46%N :: tld ++ post))
    with ((c :: label) ++ 46%N :: tld ++ post) at 2.
  rewrite (skip_label_run _ Hl).
  inversion Hl as [|? ? Hc _]; subst. rewrite Hc, !N.eqb_refl. cbn [andb].
  apply existsb_exists. exists tld. split; [exact Ht | apply startswith_app].
Qed.

Lemma has_domain_found (pre s : str) :
  domain_here s = true -> has_domain (pre ++ s) = true.
Proof.
  intros H. induction pre as [|d pre IH].
  - destruct s as [|a s]; [discriminate H|].
    change (domain_here (a :: s) || has_domain s = true).
    now rewrite H.
  - change (domain_here (d :: pre ++ s) || has_domain (pre ++ s) = true).
    rewrite IH. apply orb_true_r.
Qed.

Lemma company_domain_re_needs_domain (s : str) (g : groups) :
  search_from false company_domain_re s = Some g ->
  has_domain s = true.
Proof.
  intros H. apply search_from_sound in H.
  destruct H as (pre & w & post & -> & M).
  unfold company_domain_re in M.
  destruct M as (w1 & w2 & g1 & -> & M1 & M2).
  apply matches_lit_of in M1. destruct M1 as [-> ->].
  destruct M2 as (label & w3 & g2 & -> & (g3 & (Hl & Hlen & _ & ->) & ->) & M3).
  destruct M3 as (w4 & tld & g4 & -> & M4 & (g5 & M5 & ->)).
  apply matches_lit_of in M4. destruct M4 as [-> ->].
  assert (Ht : In tld tlds).
  { destruct M5 as [M5 | [M5 | [M5 | M5]]];
      apply matches_lit_of in M5; destruct M5 as [-> _]; simpl; tauto. }
  apply has_domain_found.
  change (py "@") with [64%N]. change (py ".") with [46%N]. simpl.
  rewrite <- app_assoc. simpl. apply domain_here_found.
  - destruct label; [simpl in Hlen; lia | discriminate].
  - eapply Forall_impl; [|exact Hl].
    intros c Hc. simpl in Hc. rewrite orb_false_r in Hc. exact Hc.
  - exact Ht.
Qed.

(** C10: the subject pattern of [extract_company] is matched without
    [re.IGNORECASE].  When the lower-cased sender holds no [@label.tld] with
    tld among com, io, ai, co, and the subject holds no lower-case [at]
    followed by a whitespace character, the result is ["Unknown"]; a
    capitalised ["At Acme Corp"] does not help, although [extract_role]
    accepts ["FOR"] and ["AT"] in any case. *)
Theorem extract_company_case_sensitive (email_from subject : str) :
  (has_domain (lower email_from) = false ->
   contains_at_space subject = false ->
   extract_company email_from subject = Ok (py "Unknown"))
  /\ extract_company (py "hr@acme.org") (py "At Acme Corp") = Ok (py "Unknown")
  /\ extract_role (py "Opening FOR Senior Developer AT Acme") [] =
     Ok (py "Senior Developer").
Proof.
  split; [|split; vm_compute; reflexivity].
  intros Hd Hs.
  assert (S : company_from_subject subject = Ok (py "Unknown")).
  { unfold company_from_subject, re_search.
    destruct (search_from false company_subject_re subject) as [g|] eqn:E;
      [|reflexivity].
    apply company_subject_re_needs_at in E. congruence. }
  unfold extract_company, re_search.
  destruct (search_from false company_domain_re (lower email_from)) as [g|] eqn:E;
    [|exact S].
  apply company_domain_re_needs_domain in E. congruence.
Qed.

End DomainFacts.

Lemma extract_company_case_sensitive_witness :
  @extract_company plain_db (py "Careers Team") (py "Your Future At Acme Corp")
  = Ok (py "Unknown").
Proof.
  apply (proj1 (@extract_company_case_sensitive plain_db
                  (py "Careers Team") (py "Your Future At Acme Corp")));
    vm_compute; reflexivity.
Defined.

(** ** Order of the searches in [extract_role] *)

Section RoleOrder.
Context {U : UnicodeDB}.

(** C1, as the code has it: the loop runs over the patterns, and for each
    pattern searches the subject and then the body; so the generic pattern on
    the subject comes first, the generic pattern on the first 200 characters
    of the body second, the title vocabulary on the subject third and on the
    body last.  In particular a body that matches the generic pattern wins
    over a subject that matches only the title vocabulary. *)
Theorem extract_role_pattern_first (subject body : str) :
  extract_role subject body =
  role_result
    (first_some [re_search role_generic_re subject true;
                 body_search role_generic_re body;
                 re_search role_title_re subject true;
                 body_search role_title_re body])
  /\ (forall m,
         re_search role_generic_re subject true = None ->
         body_search role_generic_re body = Some m ->
         extract_role subject body = role_of_match m).
Proof.
  assert (E : extract_role subject body =
              role_result
                (first_some [re_search role_generic_re subject true;
                             body_search role_generic_re body;
                             re_search role_title_re subject true;
                             body_search role_title_re body])).
  { unfold extract_role, patterns, extract_role_loop, body_search.
    cbn [first_some role_result].
    destruct (re_search role_generic_re subject true); [reflexivity|].
    destruct (truthy body).
    - destruct (re_search role_generic_re (slice_to 200 body) true); [reflexivity|].
      destruct (re_search role_title_re subject true); [reflexivity|].
      destruct (re_search role_title_re (slice_to 200 body) true); reflexivity.
    - destruct (re_search role_title_re subject true); reflexivity. }
  split; [exact E|].
  intros m Hs Hb. rewrite E, Hs, Hb. reflexivity.
Qed.

End RoleOrder.

Lemma extract_role_pattern_first_witness :
  @re_search plain_db role_generic_re (py "Backend") true = None
  /\ @extract_role plain_db (py "Backend") (py "for senior developer")
     = Ok (py "Senior Developer").
Proof.
  split; [vm_compute; reflexivity|].
  etransitivity.
  - eapply (proj2 (@extract_role_pattern_first plain_db
                     (py "Backend") (py "for senior developer")));
      vm_compute; reflexivity.
  - vm_compute. reflexivity.
Defined.

(** C1 as stated fails: the subject ["Backend"] matches only the title
    vocabulary and the body ["for senior developer"] matches the generic
    pattern; subject-first order would answer ["Backend"], the code answers
    ["Senior Developer"]. *)
Lemma extract_role_subject_first_counterexample :
  @re_search plain_db role_generic_re (py "Backend") true = None
  /\ @re_search plain_db role_title_re (py "Backend") true <> None
  /\ @body_search plain_db role_generic_re (py "for senior developer") <> None
  /\ @extract_role_subject_first plain_db (py "Backend") (py "for senior developer")
     = Ok (py "Backend")
  /\ @extract_role plain_db (py "Backend") (py "for senior developer")
     = Ok (py "Senior Developer")
  /\ @extract_role plain_db (py "Backend") (py "for senior developer")
     <> @extract_role_subject_first plain_db (py "Backend") (py "for senior developer").
Proof.
  repeat split; try (vm_compute; reflexivity); vm_compute; discriminate.
Qed.

(** ** Empty results of the extractors *)

(** C3 fails on the code: a capture made only of whitespace is stripped to the
    empty string and returned.  [at], two spaces and a dash in the subject
    give an empty company; [role:], five spaces and a dash give an empty
    role; and the record the loop stores for [blank_company_email] has the
    empty string as its Company. *)
Lemma extractors_return_empty :
  @extract_company plain_db (py "hr@acme.org") (py "Where we are at  - update") = Ok []
  /\ @extract_role plain_db (py "Open role:     - Acme") [] = Ok []
  /\ exists r,
       @analyze_applications plain_db utc_platform [] [Some blank_company_email]
       = Ok [r]
       /\ dict_get (py "Company") r = Some (CStr []).
Proof.
  split; [vm_compute; reflexivity|]. split; [vm_compute; reflexivity|].
  eexists. split; [vm_compute; reflexivity|]. vm_compute. reflexivity.
Qed.

(** ** Priority of the status keywords *)

Section StatusPriority.
Context {U : UnicodeDB}.

Lemma any_in_member (kw : str) (kws : list str) (hay : str) :
  In kw kws -> contains kw hay = true -> any_in kws hay = true.
Proof. intros Hin Hc. apply existsb_exists. now exists kw. Qed.

(** C4: the haystack is the lower-cased subject, a space, and the lower-cased
    first 500 characters of the body; the status is the first category of the
    table Rejected, Assessment, Interview, Applied with a keyword in the
    haystack, and Other when there is none.  A haystack with both
    ["unfortunately"] and ["interview"] gives Rejected, and the CodeSignal
    subject with an empty body gives Assessment. *)
Theorem categorize_status_priority (subject body : str) :
  haystack subject body = lower subject ++ py " " ++ lower (firstn 500 body)
  /\ categorize_status subject body =
     first_category status_table (haystack subject body)
  /\ (contains (py "unfortunately") (haystack subject body) = true ->
      contains (py "interview") (haystack subject body) = true ->
      categorize_status subject body = py "Rejected")
  /\ categorize_status
       (py "CodeSignal Assessment Invitation - Interview Process") []
     = py "Assessment".
Proof.
  split; [|split; [|split]].
  - unfold haystack, slice_to. now destruct body.
  - unfold categorize_status, status_table, first_category.
    destruct (any_in rejection_kw _); [reflexivity|].
    destruct (any_in assessment_kw _); [reflexivity|].
    destruct (any_in interview_kw _); [reflexivity|].
    destruct (any_in applied_kw _); reflexivity.
  - intros Hu _. unfold categorize_status.
    rewrite (@any_in_member (py "unfortunately") rejection_kw _); [reflexivity| |exact Hu].
    simpl. tauto.
  - vm_compute. reflexivity.
Qed.

End StatusPriority.

Lemma categorize_status_priority_witness :
  contains (py "unfortunately")
    (@haystack plain_db (py "Re: your interview") (py "Unfortunately we chose another path"))
  = true
  /\ contains (py "interview")
       (@haystack plain_db (py "Re: your interview") (py "Unfortunately we chose another path"))
     = true
  /\ @categorize_status plain_db (py "Re: your interview")
       (py "Unfortunately we chose another path")
     = py "Rejected".
Proof.
  split; [vm_compute; reflexivity|]. split; [vm_compute; reflexivity|].
  apply (@categorize_status_priority plain_db (py "Re: your interview")
           (py "Unfortunately we chose another path"));
    vm_compute; reflexivity.
Defined.

(** ** Sender domains that are only a recruiting platform *)

Section PlatformDomains.
Context {U : UnicodeDB}.

(** C5: when the label captured from the sender's domain has at most two
    characters left after the platform names are removed (none included),
    [extract_company] answers what the subject line gives; and for the sender
    [jobs@acme.greenhouse.io] with the subject of the spec's example the
    answer is ["Acme Corp"]. *)
Theorem extract_company_platform_fallthrough (email_from subject : str) :
  (forall m label,
      re_search company_domain_re (lower email_from) false = Some m ->
      group m 1 = Ok (Some label) ->
      length (strip_platforms label) <= 2 ->
      extract_company email_from subject = company_from_subject subject)
  /\ extract_company (py "jobs@acme.greenhouse.io")
       (py "Update on your application at Acme Corp - Thanks")
     = Ok (py "Acme Corp").
Proof.
  split; [|vm_compute; reflexivity].
  intros m label Hm Hg Hlen. unfold extract_company.
  rewrite Hm, Hg. simpl.
  destruct (Nat.ltb_spec 2 (length (strip_platforms label))) as [L | L]; [lia|].
  now rewrite andb_false_r.
Qed.

End PlatformDomains.

Lemma extract_company_platform_fallthrough_witness :
  @re_search plain_db company_domain_re (@lower plain_db (py "no-reply@Greenhouse.io")) false
  = Some {| m_ngroups := 2; m_groups := [(2, py "io"); (1, py "greenhouse")] |}
  /\ length (strip_platforms (py "greenhouse")) <= 2
  /\ @extract_company plain_db (py "no-reply@Greenhouse.io")
       (py "Your application at Initech | Next steps")
     = Ok (py "Initech").
Proof.
  split; [vm_compute; reflexivity|]. split; [vm_compute; lia|].
  etransitivity.
  - eapply (proj1 (@extract_company_platform_fallthrough plain_db
                     (py "no-reply@Greenhouse.io")
                     (py "Your application at Initech | Next steps"))
              {| m_ngroups := 2; m_groups := [(2, py "io"); (1, py "greenhouse")] |}
              (py "greenhouse")).
    + vm_compute. reflexivity.
    + vm_compute. reflexivity.
    + vm_compute. lia.
  - vm_compute. reflexivity.
Defined.

(** ** The per-message loop *)

Section Loop.
Context {U : UnicodeDB} {P : Platform}.

Lemma straddles_left (needle x y : str) :
  ends_before_space needle x = false -> straddles needle x y = false.
Proof.
  intros H. apply not_true_is_false. intros S. apply not_true_iff_false in H.
  apply H. unfold straddles in S. unfold ends_before_space.
  apply existsb_exists in S. destruct S as (i & Hi & S).
  apply existsb_exists. exists i. split; [exact Hi|].
  destruct (skipn i needle) as [|sp v]; [discriminate|].
  rewrite !andb_true_iff in S. destruct S as [[-> _] ->]. reflexivity.
Qed.

Lemma application_ok (e : email) (d : datetime) :
  fromtimestamp_ms (internalDate e) = Ok d ->
  exists company role,
    application e =
    Ok [(py "Date", CDate d);
        (py "Company", CStr company);
        (py "Role", CStr role);
        (py "Status",
         CStr (categorize_status (subject_of e) (extract_body (email_payload e))));
        (py "Subject", CStr (subject_of e))].
Proof.
  intros Hd. unfold application. rewrite Hd.
  destruct (extract_company_ok (from_of e) (subject_of e)) as [company Hc].
  destruct (extract_role_ok (subject_of e) (extract_body (email_payload e)))
    as [role Hr].
  cbn [bind]. rewrite Hc. cbn [bind]. rewrite Hr. cbn [bind].
  now exists company, role.
Qed.

Lemma application_raises (e : email) (x : exn) :
  fromtimestamp_ms (internalDate e) = Raise x -> application e = Raise x.
Proof. intros H. unfold application. now rewrite H. Qed.

Lemma application_shape (e : email) (r : record) :
  application e = Ok r ->
  exists d company role,
    fromtimestamp_ms (internalDate e) = Ok d
    /\ r = [(py "Date", CDate d);
            (py "Company", CStr company);
            (py "Role", CStr role);
            (py "Status",
             CStr (categorize_status (subject_of e)
                     (extract_body (email_payload e))));
            (py "Subject", CStr (subject_of e))].
Proof.
  intros H. destruct (fromtimestamp_ms (internalDate e)) as [d|x] eqn:Hd.
  - destruct (application_ok e Hd) as (company & role & E).
    rewrite E in H. injection H as <-. now exists d, company, role.
  - rewrite (application_raises e Hd) in H. discriminate.
Qed.

(** One turn of the loop does not look at the records gathered so far. *)
Lemma process_email_from_empty (applications : list record) (fetched : option email) :
  process_email applications fetched =
  match process_email [] fetched with
  | Ok new => Ok (applications ++ new)
  | Raise x => Raise x
  end.
Proof.
  unfold process_email. destruct fetched as [e|].
  - destruct (is_job_alert (from_of e) (subject_of e)).
    + now rewrite app_nil_r.
    + destruct (application e); reflexivity.
  - now rewrite app_nil_r.
Qed.

Lemma goes_on_iff (fetched : option email) :
  goes_on fetched <-> exists new, process_email [] fetched = Ok new.
Proof.
  unfold goes_on, process_email. destruct fetched as [e|]; [|split; eauto].
  destruct (is_job_alert (from_of e) (subject_of e)); [split; eauto|].
  split.
  - intros [H | [d Hd]]; [discriminate|].
    destruct (application_ok e Hd) as (company & role & ->). simpl. eauto.
  - intros [new H]. right.
    destruct (application e) as [r|x] eqn:A; [|discriminate].
    destruct (application_shape e A) as (d & _ & _ & Hd & _). now exists d.
Qed.

Lemma process_email_events (applications : list record) (fetched : option email) :
  goes_on fetched ->
  process_email applications fetched = Ok (applications ++ events_of fetched).
Proof.
  intros H. apply goes_on_iff in H. destruct H as [new H].
  rewrite process_email_from_empty. unfold events_of. now rewrite H.
Qed.

Lemma analyze_applications_events (fetched : list (option email)) :
  Forall goes_on fetched ->
  forall applications,
    analyze_applications applications fetched =
    Ok (applications ++ flat_map events_of fetched).
Proof.
  induction 1 as [|f fetched Hf _ IH]; intros applications; simpl.
  - now rewrite app_nil_r.
  - rewrite (process_email_events _ _ Hf). simpl. rewrite IH.
    now rewrite <- app_assoc.
Qed.

Lemma analyze_applications_ok (fetched : list (option email)) :
  forall applications result,
    analyze_applications applications fetched = Ok result ->
    Forall goes_on fetched
    /\ result = applications ++ flat_map events_of fetched.
Proof.
  induction fetched as [|f fetched IH]; intros applications result H; simpl in H.
  - injection H as <-. split; [constructor | now rewrite app_nil_r].
  - destruct (process_email applications f) as [apps'|x] eqn:E; [|discriminate].
    simpl in H. destruct (IH _ _ H) as [Hall ->].
    assert (G : goes_on f).
    { apply goes_on_iff. rewrite process_email_from_empty in E.
      destruct (process_email [] f) as [new|]; [eauto | discriminate]. }
    rewrite (process_email_events _ _ G) in E. injection E as <-.
    split; [now constructor | simpl; now rewrite <- app_assoc].
Qed.

Lemma analyze_applications_raises (fetched : list (option email))
    (applications : list record) :
  ~ Forall goes_on fetched ->
  exists x, analyze_applications applications fetched = Raise x.
Proof.
  intros H. destruct (analyze_applications applications fetched) as [r|x] eqn:E.
  - destruct (analyze_applications_ok _ _ E) as [Hall _]. contradiction.
  - now exists x.
Qed.

Lemma analyze_applications_app (first second : list (option email)) :
  forall applications,
    analyze_applications applications (first ++ second) =
    (held <- analyze_applications applications first ;;
     analyze_applications held second).
Proof.
  induction first as [|f first IH]; intros applications; simpl; [reflexivity|].
  destruct (process_email applications f); simpl; [apply IH | reflexivity].
Qed.

Lemma events_of_alert (e : email) :
  is_job_alert (from_of e) (subject_of e) = true -> events_of (Some e) = [].
Proof. intros H. unfold events_of, process_email. now rewrite H. Qed.

Lemma events_of_kept (e : email) :
  is_job_alert (from_of e) (subject_of e) = false ->
  date_ok e ->
  exists r, events_of (Some e) = [r] /\ application e = Ok r.
Proof.
  intros H [d Hd]. unfold events_of, process_email. rewrite H.
  destruct (application_ok e Hd) as (company & role & E). rewrite E. simpl. eauto.
Qed.

Lemma application_status (e : email) (r : record) :
  application e = Ok r ->
  dict_get (py "Status") r =
  Some (CStr (categorize_status (subject_of e) (extract_body (email_payload e))))
  /\ dict_get (py "Subject") r = Some (CStr (subject_of e)).
Proof.
  intros H. destruct (application_shape e H) as (d & company & role & _ & ->).
  split; reflexivity.
Qed.

End Loop.

(** ** Three messages, end to end *)

Section EndToEnd.
Context {U : UnicodeDB} {P : Platform}.

Lemma haystack_eq (subject body : str) :
  haystack subject body = lower subject ++ 32%N :: lower (firstn 500 body).
Proof. unfold haystack, slice_to. now destruct body. Qed.

Lemma no_straddle (kws : list str) (x y : str) :
  existsb (fun kw => ends_before_space kw x) kws = false ->
  existsb (fun kw => straddles kw x y) kws = false.
Proof.
  induction kws as [|kw kws IH]; simpl; [reflexivity|].
  intros H. apply orb_false_iff in H. destruct H as [H1 H2].
  now rewrite (straddles_left _ _ _ H1), IH.
Qed.

Lemma status_rejection (body : str) :
  categorize_status rejection_subject body = py "Rejected".
Proof.
  unfold categorize_status. rewrite haystack_eq.
  rewrite (@any_in_member (py "unfortunately") rejection_kw); [reflexivity| |].
  - simpl. tauto.
  - apply contains_app_l. vm_compute. reflexivity.
Qed.

Lemma status_applied (body : str) :
  any_in (rejection_kw ++ assessment_kw ++ interview_kw) (lower (firstn 500 body))
  = false ->
  categorize_status applied_subject body = py "Applied".
Proof.
  intros H. unfold any_in in H. rewrite !existsb_app in H.
  apply orb_false_iff in H. destruct H as [Hr H].
  apply orb_false_iff in H. destruct H as [Ha Hi].
  unfold categorize_status. rewrite haystack_eq.
  rewrite !any_in_joint. unfold any_in at 2 4 6. rewrite Hr, Ha, Hi.
  rewrite !no_straddle by (vm_compute; reflexivity).
  replace (any_in rejection_kw (lower applied_subject)) with false
    by (vm_compute; reflexivity).
  replace (any_in assessment_kw (lower applied_subject)) with false
    by (vm_compute; reflexivity).
  replace (any_in interview_kw (lower applied_subject)) with false
    by (vm_compute; reflexivity).
  replace (any_in applied_kw (lower applied_subject)) with true
    by (vm_compute; reflexivity).
  reflexivity.
Qed.

(** A sender outside the denylist with one of the two subjects is not an
    alert: nothing denylisted can end in the sender and go on in the
    subject. *)
Lemma clean_sender_kept (email_from subject : str) :
  subject = rejection_subject \/ subject = applied_subject ->
  any_in spam_indicators (lower email_from) = false ->
  is_job_alert email_from subject = false.
Proof.
  intros Hs Hf. rewrite is_job_alert_split, Hf.
  generalize (lower email_from). intros x.
  destruct Hs as [-> | ->]; vm_compute; reflexivity.
Qed.

Lemma indeed_is_alert (subject : str) :
  is_job_alert (py "jobs@indeed.com") subject = true.
Proof.
  rewrite is_job_alert_split.
  replace (any_in spam_indicators (lower (py "jobs@indeed.com"))) with true
    by (vm_compute; reflexivity).
  reflexivity.
Qed.

(** C6, as the code has it: three fetched messages, in any order: one from
    [jobs@indeed.com], one with the rejection subject and one with the
    applied subject, the last two from senders outside the denylist and with
    timestamps that can be made dates.  Whatever the body of the rejection
    message, and when the first 500 characters of the applied message's body
    hold no rejection, assessment or interview keyword (an empty body, for
    one), the loop started on an empty list yields exactly two records, one
    with status Rejected and one with status Applied, each with its own
    subject; processed in the order listed they come out in that order; the
    alert leaves none. *)
Theorem three_messages_two_events
    (noise rejection applied : email) (fetched : list (option email)) :
  from_of noise = py "jobs@indeed.com" ->
  subject_of rejection = rejection_subject ->
  subject_of applied = applied_subject ->
  any_in spam_indicators (lower (from_of rejection)) = false ->
  any_in spam_indicators (lower (from_of applied)) = false ->
  date_ok rejection ->
  date_ok applied ->
  any_in (rejection_kw ++ assessment_kw ++ interview_kw)
         (lower (firstn 500 (extract_body (email_payload applied)))) = false ->
  Permutation fetched [Some noise; Some rejection; Some applied] ->
  exists r a apps,
    analyze_applications [] fetched = Ok apps
    /\ length apps = 2
    /\ Permutation apps [r; a]
    /\ (fetched = [Some noise; Some rejection; Some applied] -> apps = [r; a])
    /\ dict_get (py "Status") r = Some (CStr (py "Rejected"))
    /\ dict_get (py "Subject") r = Some (CStr rejection_subject)
    /\ dict_get (py "Status") a = Some (CStr (py "Applied"))
    /\ dict_get (py "Subject") a = Some (CStr applied_subject).
Proof.
  intros Hn Hrs Has Hrf Haf Hrd Had Hab Hperm.
  assert (Jn : is_job_alert (from_of noise) (subject_of noise) = true).
  { rewrite Hn. apply indeed_is_alert. }
  assert (En : events_of (Some noise) = []) by now apply events_of_alert.
  destruct (@events_of_kept _ _ rejection) as (r & Er & Ar);
    [apply clean_sender_kept; auto | exact Hrd |].
  destruct (@events_of_kept _ _ applied) as (a & Ea & Aa);
    [apply clean_sender_kept; auto | exact Had |].
  destruct (application_status _ Ar) as [Sr Tr].
  destruct (application_status _ Aa) as [Sa Ta].
  rewrite Hrs in Sr, Tr. rewrite Has in Sa, Ta.
  rewrite status_rejection in Sr. rewrite (status_applied _ Hab) in Sa.
  assert (Hgo : Forall goes_on fetched).
  { apply (Permutation_Forall (Permutation_sym Hperm)).
    constructor; [left; exact Jn|].
    constructor; [right; exact Hrd|].
    constructor; [right; exact Had | constructor]. }
  assert (Hp : Permutation (flat_map events_of fetched) [r; a]).
  { rewrite (Permutation_flat_map events_of Hperm). simpl.
    rewrite En, Er, Ea. reflexivity. }
  exists r, a, (flat_map events_of fetched).
  split; [exact (analyze_applications_events Hgo [])|].
  split; [now rewrite (Permutation_length Hp)|].
  split; [exact Hp|].
  split; [|tauto].
  intros ->. simpl. now rewrite En, Er, Ea.
Qed.

End EndToEnd.

Lemma three_messages_two_events_witness :
  exists r a apps,
    @analyze_applications plain_db utc_platform []
      [Some applied_email; Some noise_email; Some rejection_email] = Ok apps
    /\ length apps = 2
    /\ Permutation apps [r; a]
    /\ dict_get (py "Status") r = Some (CStr (py "Rejected"))
    /\ dict_get (py "Status") a = Some (CStr (py "Applied")).
Proof.
  destruct (@three_messages_two_events plain_db utc_platform
              noise_email rejection_email applied_email
              [Some applied_email; Some noise_email; Some rejection_email])
    as (r & a & apps & H1 & H2 & H3 & _ & H5 & _ & H7 & _);
    try (vm_compute; reflexivity).
  - eexists. vm_compute. reflexivity.
  - eexists. vm_compute. reflexivity.
  - apply Permutation_sym.
    apply (Permutation_cons_app [Some applied_email] [Some rejection_email]).
    apply (Permutation_cons_app [Some applied_email] []).
    apply Permutation_refl.
  - exists r, a, apps. tauto.
Defined.

(** C6 as stated fails twice over.  With the sender and subjects it names,
    an applied message whose body speaks of an interview comes out with the
    status Interview; and one stamped in year 10000 makes the loop raise,
    here [ValueError], and no list is returned. *)
Lemma three_messages_counterexample :
  @from_of noise_email = py "jobs@indeed.com"
  /\ subject_of rejection_email = rejection_subject
  /\ subject_of applied_email_interview_body = applied_subject
  /\ subject_of applied_email_year_10000 = applied_subject
  /\ any_in spam_indicators (@lower plain_db (from_of rejection_email)) = false
  /\ any_in spam_indicators
       (@lower plain_db (from_of applied_email_interview_body)) = false
  /\ any_in spam_indicators
       (@lower plain_db (from_of applied_email_year_10000)) = false
  /\ (exists r a,
         @analyze_applications plain_db utc_platform []
           [Some noise_email; Some rejection_email;
            Some applied_email_interview_body] = Ok [r; a]
         /\ dict_get (py "Status") r = Some (CStr (py "Rejected"))
         /\ dict_get (py "Status") a = Some (CStr (py "Interview")))
  /\ @analyze_applications plain_db utc_platform []
       [Some noise_email; Some rejection_email; Some applied_email_year_10000]
     = Raise ValueError.
Proof.
  repeat (split; [vm_compute; reflexivity|]).
  split; [|vm_compute; reflexivity].
  do 2 eexists. split; [vm_compute; reflexivity|].
  split; vm_compute; reflexivity.
Qed.

(** ** The report table *)

Lemma insert_by_perm {A} (leb : A -> A -> bool) (x : A) (l : list A) :
  Permutation (insert_by leb x l) (x :: l).
Proof.
  induction l as [|y l IH]; simpl; [reflexivity|].
  destruct (leb x y); [reflexivity|].
  rewrite IH. apply perm_swap.
Qed.

Lemma insertion_sort_perm {A} (leb : A -> A -> bool) (l : list A) :
  Permutation (insertion_sort leb l) l.
Proof.
  induction l as [|x l IH]; simpl; [reflexivity|].
  rewrite insert_by_perm. now constructor.
Qed.

Lemma insert_by_sorted {A} (leb : A -> A -> bool) (x : A) (l : list A) :
  (forall a b, leb a b = false -> leb b a = true) ->
  Sorted (fun a b => leb a b = true) l ->
  Sorted (fun a b => leb a b = true) (insert_by leb x l).
Proof.
  intros total. induction 1 as [|y l Hs IH Hd]; simpl.
  - repeat constructor.
  - destruct (leb x y) eqn:E.
    + repeat constructor; assumption.
    + constructor; [exact IH|].
      destruct Hd as [|z l Hz]; simpl.
      * constructor. now apply total.
      * destruct (leb x z); constructor; [now apply total | exact Hz].
Qed.

Lemma insertion_sort_sorted {A} (leb : A -> A -> bool) (l : list A) :
  (forall a b, leb a b = false -> leb b a = true) ->
  Sorted (fun a b => leb a b = true) (insertion_sort leb l).
Proof.
  intros total. induction l as [|x l IH]; simpl.
  - constructor.
  - now apply insert_by_sorted.
Qed.

Section Report.
Context {U : UnicodeDB} {P : Platform}.

Lemma events_are_applications (f : option email) (r : record) :
  In r (events_of f) -> is_application r.
Proof.
  unfold events_of, process_email. destruct f as [e|]; [|intros []].
  destruct (is_job_alert (from_of e) (subject_of e)); [intros []|].
  destruct (application e) as [r'|x] eqn:A; [|intros []]. simpl.
  destruct (application_shape e A) as (d & company & role & _ & ->).
  intros [<- | []]. unfold is_application. eauto 6.
Qed.

Lemma processed_are_applications (fetched : list (option email)) (apps : list record) :
  analyze_applications [] fetched = Ok apps -> Forall is_application apps.
Proof.
  intros H. destruct (analyze_applications_ok _ _ H) as [_ ->]. simpl.
  apply Forall_forall. intros r Hr. apply in_flat_map in Hr.
  destruct Hr as (f & _ & Hr). now apply events_are_applications in Hr.
Qed.

Lemma union_keys_applications (rs : list record) :
  Forall is_application rs -> union_keys report_columns rs = report_columns.
Proof.
  induction 1 as [|r rs (d & c & ro & st & su & ->) _ IH]; simpl; [reflexivity|].
  exact IH.
Qed.

Lemma DataFrame_of_applications (apps : list record) :
  apps <> [] ->
  Forall is_application apps ->
  DataFrame_of apps = {| columns := report_columns; rows := map values apps |}.
Proof.
  intros Hne Hall. unfold DataFrame_of.
  assert (C : union_keys [] apps = report_columns).
  { destruct apps as [|r rs]; [contradiction|].
    inversion Hall as [|? ? (d & c & ro & st & su & ->) Hrs]; subst.
    simpl. now apply union_keys_applications. }
  rewrite C. f_equal. apply map_ext_in. intros r Hr.
  rewrite Forall_forall in Hall.
  destruct (Hall r Hr) as (d & c & ro & st & su & ->). reflexivity.
Qed.

Lemma Sorted_strengthen {A} (R R' : A -> A -> Prop) (Q : A -> Prop) (l : list A) :
  (forall a b, Q a -> Q b -> R a b -> R' a b) ->
  Forall Q l -> Sorted R l -> Sorted R' l.
Proof.
  intros HR HQ HS. induction HS as [|a l HS IH Hd]; constructor.
  - apply IH. now inversion HQ.
  - destruct Hd as [|b l Hab]; constructor.
    inversion HQ as [|? ? Qa Ql]; subst. inversion Ql; subst. now apply HR.
Qed.

Variable sort_values : str -> bool -> DataFrame -> DataFrame.

(** What pandas promises of [sort_values]: the same columns, the same rows in
    another order, and with [ascending=False] on a date column no row before
    a row of a later date. *)
Hypothesis sort_values_columns :
  forall by_ ascending df, columns (sort_values by_ ascending df) = columns df.
Hypothesis sort_values_rows :
  forall by_ ascending df,
    Permutation (rows (sort_values by_ ascending df)) (rows df).
Hypothesis sort_values_descending :
  forall by_ df,
    Sorted (fun row1 row2 => date_desc (columns df) by_ row1 row2 = true)
           (rows (sort_values by_ false df)).

(** C8 on the code: [generate_report] writes into [output/] without making
    it.  When the loop has gathered at least one application and the working
    directory has no [output], [to_csv] raises [OSError] and nothing is
    written.  When the directory is there, the table written has the
    columns Date, Company, Role, Status, Subject in this order, its lines
    are the gathered records, all of them and nothing else, each with its
    five values in column order, and no line comes before a line of a later
    date. *)
Theorem generate_report_table (fetched : list (option email)) (apps : list record) :
  analyze_applications [] fetched = Ok apps ->
  apps <> [] ->
  generate_report sort_values {| has_output_dir := false |} apps = Raise OSError
  /\ exists file df,
       generate_report sort_values {| has_output_dir := true |} apps
       = Ok (Some (file, df))
       /\ header file = report_columns
       /\ Permutation (lines file) (map values apps)
       /\ Sorted not_earlier (lines file).
Proof.
  intros Hrun Hne.
  pose proof (processed_are_applications _ Hrun) as Hall.
  destruct apps as [|r0 rs0] eqn:Eapps; [contradiction|]. rewrite <- Eapps in *.
  split; [rewrite Eapps; reflexivity|].
  exists (to_csv (sort_values (py "Date") false (DataFrame_of apps))),
         (sort_values (py "Date") false (DataFrame_of apps)).
  assert (Hperm : Permutation
                    (rows (sort_values (py "Date") false (DataFrame_of apps)))
                    (map values apps)).
  { rewrite sort_values_rows, DataFrame_of_applications by assumption.
    reflexivity. }
  split; [rewrite Eapps; reflexivity|].
  split; [|split].
  - simpl. rewrite sort_values_columns, DataFrame_of_applications by assumption.
    reflexivity.
  - exact Hperm.
  - simpl.
    apply (@Sorted_strengthen _
             (fun row1 row2 => date_desc report_columns (py "Date") row1 row2 = true)
             not_earlier
             (fun row => exists d rest, row = Some (CDate d) :: rest)).
    + intros a b (d1 & rest1 & ->) (d2 & rest2 & ->) Hab.
      exists d1, d2, rest1, rest2. auto.
    + apply (Permutation_Forall (Permutation_sym Hperm)).
      apply Forall_forall. intros row Hrow. apply in_map_iff in Hrow.
      destruct Hrow as (r & <- & Hr). rewrite Forall_forall in Hall.
      destruct (Hall r Hr) as (d & c & ro & st & su & ->).
      simpl. eauto.
    + pose proof (sort_values_descending (py "Date") (DataFrame_of apps)) as S.
      rewrite (DataFrame_of_applications Hne Hall) in S |- *. exact S.
Qed.

End Report.

Lemma date_desc_total (cols : list str) (by_ : str)
    (a b : list (option (@cell utc_platform))) :
  @date_desc utc_platform cols by_ a b = false ->
  @date_desc utc_platform cols by_ b a = true.
Proof.
  unfold date_desc.
  destruct (cell_at cols by_ a) as [[d1|]|], (cell_at cols by_ b) as [[d2|]|];
    try discriminate; simpl.
  intros H. apply Z.leb_gt in H. apply Z.leb_le. lia.
Qed.

Lemma sort_values_by_insertion_descending (by_ : str) (df : @DataFrame utc_platform) :
  Sorted (fun row1 row2 => date_desc (columns df) by_ row1 row2 = true)
         (rows (sort_values_by_insertion by_ false df)).
Proof. simpl. apply insertion_sort_sorted. apply date_desc_total. Qed.

Lemma sample_fetched_go_on :
  Forall (@goes_on plain_db utc_platform)
         [Some applied_email; None; Some noise_email; Some rejection_email].
Proof.
  constructor; [right; eexists; vm_compute; reflexivity|].
  constructor; [exact I|].
  constructor; [left; vm_compute; reflexivity|].
  constructor; [right; eexists; vm_compute; reflexivity | constructor].
Qed.

Lemma generate_report_table_witness :
  let fetched := [Some applied_email; None; Some noise_email; Some rejection_email] in
  let apps := flat_map (@events_of plain_db utc_platform) fetched in
  apps <> []
  /\ generate_report sort_values_by_insertion {| has_output_dir := false |} apps
     = Raise OSError
  /\ exists file df,
       generate_report sort_values_by_insertion {| has_output_dir := true |} apps
       = Ok (Some (file, df))
       /\ header file = report_columns
       /\ Permutation (lines file) (map values apps)
       /\ Sorted not_earlier (lines file).
Proof.
  intros fetched apps.
  assert (Hne : apps <> []) by (vm_compute; discriminate).
  split; [exact Hne|].
  apply (@generate_report_table plain_db utc_platform sort_values_by_insertion
           (fun by_ ascending df => eq_refl)
           (fun by_ ascending df => insertion_sort_perm _ (rows df))
           sort_values_by_insertion_descending
           fetched apps).
  - exact (analyze_applications_events sample_fetched_go_on []).
  - exact Hne.
Defined.

(** * Further properties of the code *)

(** ** Headers and bodies *)

Lemma str_eqb_eq (a b : str) : str_eqb a b = true <-> a = b.
Proof.
  unfold str_eqb. rewrite andb_true_iff, Nat.eqb_eq, startswith_iff. split.
  - intros [L [q ->]]. rewrite length_app in L.
    destruct q; [now rewrite app_nil_r | simpl in L; lia].
  - intros ->. split; [reflexivity | exists []; now rewrite app_nil_r].
Qed.

Lemma str_eqb_refl (a : str) : str_eqb a a = true.
Proof. now apply str_eqb_eq. Qed.

Lemma str_eqb_neq (a b : str) : a <> b -> str_eqb a b = false.
Proof.
  intros H. destruct (str_eqb a b) eqn:E; [|reflexivity].
  apply str_eqb_eq in E. contradiction.
Qed.

Lemma header_get_absent (name default : str) (hs : list (str * str)) :
  (forall n v, In (n, v) hs -> n <> name) ->
  header_get name default hs = default.
Proof.
  revert default. induction hs as [|[n v] hs IH]; intros default H; simpl.
  - reflexivity.
  - rewrite (str_eqb_neq (H n v (or_introl eq_refl))).
    apply IH. intros n' v' Hin. apply (H n' v'). now right.
Qed.

(** X1: the header dictionary.  A header name that does not occur gives the
    default (the empty string for Subject and From), and when a name occurs
    several times its last value counts, whatever came before. *)
Theorem header_get_last_wins (name default : str) (hs : list (str * str)) :
  ((forall n v, In (n, v) hs -> n <> name) ->
   header_get name default hs = default)
  /\ (forall before value after,
         hs = before ++ (name, value) :: after ->
         (forall n v, In (n, v) after -> n <> name) ->
         header_get name default hs = value).
Proof.
  split; [apply header_get_absent|].
  intros before value after -> Hafter. revert default.
  induction before as [|[n v] before IH]; intros default; simpl.
  - rewrite str_eqb_refl. now apply header_get_absent.
  - apply IH.
Qed.

Lemma header_get_last_wins_witness :
  subject_of applied_email_again = applied_subject.
Proof.
  apply (proj2 (header_get_last_wins (py "Subject") []
                  (headers (email_payload applied_email_again)))
           [(py "Subject", py "draft"); (py "To", py "me@example.org")]
           applied_subject
           [(py "From", py "no-reply@acme.com")]).
  - reflexivity.
  - intros n v [[= <- <-] | []]. vm_compute. discriminate.
Defined.

Section BodyFacts.
Context {P : Platform}.

Lemma first_plain_part_passed (ps rest : list part) :
  Forall passed_over ps ->
  first_plain_part (ps ++ rest) = first_plain_part rest.
Proof.
  induction 1 as [|q ps [(mime & Hm & Hq) | [Hm Hb]] _ IH]; simpl;
    [reflexivity| |].
  - now rewrite Hm, Hq.
  - now rewrite Hm, Hb.
Qed.

(** X2: the body of a message.  With a [parts] list, the loop passes over
    the parts that are not [text/plain] and the [text/plain] parts whose
    body has no data, and stops at the first part that is [text/plain] with
    data, whose decoded data is the body; it also stops, with an empty body,
    at a part that has no [mimeType] or is [text/plain] without a [body]
    ([KeyError], caught), even when a good part follows.  The payload's own
    body data is never used then, so a multipart message whose parts are all
    passed over has an empty body.  Without [parts] the body is the decoded
    payload data, empty when there is none.  Data the decoder rejects gives
    the empty body. *)
Theorem extract_body_first_plain_part (p : payload) :
  (forall ps, parts p = Some ps -> Forall passed_over ps -> extract_body p = [])
  /\ (forall before q data after,
         parts p = Some (before ++ q :: after) ->
         Forall passed_over before ->
         mimeType q = Some (py "text/plain") ->
         part_body q = Some (Some data) ->
         extract_body p = decoded data)
  /\ (forall before q after,
         parts p = Some (before ++ q :: after) ->
         Forall passed_over before ->
         lacks_key q ->
         extract_body p = [])
  /\ (parts p = None ->
      extract_body p = match body_data p with
                       | Some data => decoded data
                       | None => []
                       end)
  /\ (forall data, b64decode_utf8 data = None -> decoded data = []).
Proof.
  split; [|split; [|split; [|split]]].
  - intros ps Hp Hall. unfold extract_body. rewrite Hp.
    rewrite <- (app_nil_r ps). now rewrite first_plain_part_passed.
  - intros before q data after Hp Hall Hm Hd. unfold extract_body. rewrite Hp.
    rewrite first_plain_part_passed by assumption. simpl.
    rewrite Hm, Hd. reflexivity.
  - intros before q after Hp Hall Hq. unfold extract_body. rewrite Hp.
    rewrite first_plain_part_passed by assumption. simpl.
    destruct Hq as [Hm | [Hm Hb]]; [now rewrite Hm | now rewrite Hm, Hb].
  - intros Hp. unfold extract_body. rewrite Hp. reflexivity.
  - intros data H. unfold decoded. now rewrite H.
Qed.

End BodyFacts.

Lemma extract_body_first_plain_part_witness :
  @extract_body utc_platform multipart_payload = py "Hi"
  /\ @extract_body utc_platform broken_payload = [].
Proof.
  split.
  - apply (proj1 (proj2 (@extract_body_first_plain_part utc_platform multipart_payload))
             [ {| mimeType := Some (py "text/html");
                  part_body := Some (Some (py "<p>Hi</p>")) |};
               {| mimeType := Some (py "text/plain"); part_body := Some None |} ]
             {| mimeType := Some (py "text/plain"); part_body := Some (Some (py "Hi")) |}
             (py "Hi")
             [ {| mimeType := Some (py "text/plain");
                  part_body := Some (Some (py "Bye")) |} ]).
    + reflexivity.
    + constructor; [left; eexists; split; reflexivity|].
      constructor; [right; split; reflexivity | constructor].
    + reflexivity.
    + reflexivity.
  - apply (proj1 (proj2 (proj2 (@extract_body_first_plain_part utc_platform
                                  broken_payload)))
             [ {| mimeType := Some (py "text/html");
                  part_body := Some (Some (py "<p>Hi</p>")) |} ]
             {| mimeType := Some (py "text/plain"); part_body := None |}
             [ {| mimeType := Some (py "text/plain");
                  part_body := Some (Some (py "Hi")) |} ]).
    + reflexivity.
    + constructor; [left; eexists; split; reflexivity | constructor].
    + right. split; reflexivity.
Defined.

(** ** The loop over the fetched messages *)

Section LoopFacts.
Context {U : UnicodeDB} {P : Platform}.



Lemma kept_messages_in (fetched : list (option email)) (e : email) :
  In e (kept_messages fetched) <->
  In (Some e) fetched /\ is_job_alert (from_of e) (subject_of e) = false.
Proof.
  unfold kept_messages. rewrite in_flat_map. split.
  - intros ([e'|] & Hin & He); [|destruct He].
    destruct (is_job_alert (from_of e') (subject_of e')) eqn:J; [destruct He|].
    destruct He as [<- | []]. auto.
  - intros [Hin J]. exists (Some e). rewrite J. simpl. auto.
Qed.

Lemma kept_dates_go_on (fetched : list (option email)) :
  Forall date_ok (kept_messages fetched) -> Forall goes_on fetched.
Proof.
  intros H. rewrite Forall_forall in H. apply Forall_forall.
  intros [e|] Hin; [|exact I]. unfold goes_on.
  destruct (is_job_alert (from_of e) (subject_of e)) eqn:J; [now left|].
  right. apply H. now apply kept_messages_in.
Qed.

(** X3: the loop stores exactly one record for each message that was fetched
    and is no job alert, in the order of processing, after the records the
    tracker already holds, provided the timestamp of each of them can be
    made a date; messages that could not be fetched and job alerts leave
    nothing.  The record carries the message's Subject header as it is, the
    date made from [internalDate], and a Status among the five.  When the
    date of one such message cannot be made, the loop raises and returns no
    list. *)
Theorem one_record_per_kept_message
    (applications : list record) (fetched : list (option email)) :
  (Forall date_ok (kept_messages fetched) ->
   exists recs,
     analyze_applications applications fetched = Ok (applications ++ recs)
     /\ Forall2
          (fun e r =>
             application e = Ok r
             /\ dict_get (py "Subject") r = Some (CStr (subject_of e))
             /\ (exists d,
                    fromtimestamp_ms (internalDate e) = Ok d
                    /\ dict_get (py "Date") r = Some (CDate d))
             /\ exists status,
                  dict_get (py "Status") r = Some (CStr status)
                  /\ In status statuses)
          (kept_messages fetched) recs)
  /\ (forall e,
         In e (kept_messages fetched) -> ~ date_ok e ->
         exists x, analyze_applications applications fetched = Raise x).
Proof.
  split.
  - intros Hd. exists (flat_map events_of fetched).
    split; [apply analyze_applications_events, kept_dates_go_on, Hd|].
    induction fetched as [|f fetched IH]; simpl; [constructor|].
    simpl in Hd. apply Forall_app in Hd. destruct Hd as [Hf Hd].
    apply Forall2_app; [|exact (IH Hd)].
    destruct f as [e|]; [|constructor].
    destruct (is_job_alert (from_of e) (subject_of e)) eqn:J.
    + rewrite (events_of_alert _ J). constructor.
    + inversion Hf as [|? ? He _]; subst.
      destruct (events_of_kept J He) as (r & -> & Ar).
      constructor; [|constructor].
      split; [exact Ar|].
      destruct (application_shape e Ar) as (d & company & role & Ed & ->).
      split; [reflexivity|]. split; [exists d; split; [exact Ed | reflexivity]|].
      eexists. split; [reflexivity | apply categorize_status_closed].
  - intros e Hin Hno. apply analyze_applications_raises. intros Hall.
    apply kept_messages_in in Hin. destruct Hin as [Hin J].
    rewrite Forall_forall in Hall. specialize (Hall _ Hin). simpl in Hall.
    destruct Hall as [H | H]; [congruence | contradiction].
Qed.

(** X4: the tracker's list is never emptied.  When two runs of the loop on a
    fresh tracker succeed, running the second on the tracker of the first
    keeps the first run's records and puts its own after them, which is what
    one run over both batches gives; so a tracker that analyses the same
    messages twice holds every record twice.  A run that raises on the first
    batch raises the same on both batches together. *)
Theorem second_run_appends
    (first second : list (option email)) (r1 r2 : list record) :
  analyze_applications [] first = Ok r1 ->
  analyze_applications [] second = Ok r2 ->
  analyze_applications r1 second = Ok (r1 ++ r2)
  /\ analyze_applications [] (first ++ second) = Ok (r1 ++ r2)
  /\ analyze_applications r1 first = Ok (r1 ++ r1)
  /\ (forall x held,
         analyze_applications held first = Raise x ->
         analyze_applications held (first ++ second) = Raise x).
Proof.
  intros H1 H2.
  destruct (analyze_applications_ok _ _ H1) as [G1 E1].
  destruct (analyze_applications_ok _ _ H2) as [G2 E2].
  simpl in E1, E2. subst r1 r2.
  split; [apply analyze_applications_events, G2|].
  split.
  - rewrite analyze_applications_app, H1. simpl.
    apply analyze_applications_events, G2.
  - split; [apply analyze_applications_events, G1|].
    intros x held H. now rewrite analyze_applications_app, H.
Qed.

End LoopFacts.

Lemma one_record_per_kept_message_witness :
  (exists recs,
      @analyze_applications plain_db utc_platform []
        [Some applied_email; None; Some noise_email; Some rejection_email]
      = Ok ([] ++ recs)
      /\ length recs = 2)
  /\ exists x,
       @analyze_applications plain_db utc_platform []
         [Some rejection_email; Some applied_email_year_10000] = Raise x.
Proof.
  split.
  - destruct (proj1 (@one_record_per_kept_message plain_db utc_platform []
                       [Some applied_email; None; Some noise_email;
                        Some rejection_email]))
      as (recs & H & F).
    + vm_compute.
      constructor; [eexists; reflexivity|].
      constructor; [eexists; reflexivity | constructor].
    + exists recs. split; [exact H|].
      apply Forall2_length in F. rewrite <- F. vm_compute. reflexivity.
  - apply (proj2 (@one_record_per_kept_message plain_db utc_platform []
                    [Some rejection_email; Some applied_email_year_10000])
             applied_email_year_10000).
    + vm_compute. tauto.
    + intros [d Hd]. vm_compute in Hd. discriminate.
Defined.

Lemma second_run_appends_witness :
  exists r,
    @analyze_applications plain_db utc_platform []
      [Some applied_email; Some noise_email] = Ok r
    /\ @analyze_applications plain_db utc_platform r
         [Some applied_email; Some noise_email] = Ok (r ++ r)
    /\ length (r ++ r) = 2.
Proof.
  destruct (@analyze_applications plain_db utc_platform []
              [Some applied_email; Some noise_email]) as [r|x] eqn:E;
    [|vm_compute in E; discriminate].
  exists r. split; [reflexivity|]. split.
  - exact (proj1 (proj2 (proj2 (@second_run_appends plain_db utc_platform
                                  [Some applied_email; Some noise_email]
                                  [Some applied_email; Some noise_email]
                                  r r E E)))).
  - vm_compute in E. injection E as <-. reflexivity.
Defined.

(** ** The set of message ids *)

Lemma existsb_str_eqb (i : str) (s : list str) :
  existsb (str_eqb i) s = true <-> In i s.
Proof.
  rewrite existsb_exists. split.
  - intros (j & Hj & E). apply str_eqb_eq in E. now subst.
  - intros H. exists i. split; [exact H | apply str_eqb_refl].
Qed.

Lemma set_add_spec (i : str) (s : list str) :
  (NoDup s -> NoDup (set_add i s))
  /\ (forall j, In j (set_add i s) <-> j = i \/ In j s).
Proof.
  unfold set_add. destruct (existsb (str_eqb i) s) eqn:E.
  - apply existsb_str_eqb in E. split; [auto|].
    intros j. split; [auto|]. intros [-> | H]; assumption.
  - assert (N : ~ In i s).
    { intros H. apply existsb_str_eqb in H. congruence. }
    split.
    + intros D. apply NoDup_app; [exact D | repeat constructor; intros [] |].
      intros j Hj [<- | []]. contradiction.
    + intros j. rewrite in_app_iff. simpl. intuition.
Qed.

Lemma set_update_spec (new s : list str) :
  (NoDup s -> NoDup (set_update s new))
  /\ (forall j, In j (set_update s new) <-> In j s \/ In j new).
Proof.
  unfold set_update. revert s. induction new as [|i new IH]; intros s; simpl.
  - split; [auto|]. intros j. tauto.
  - destruct (IH (set_add i s)) as [D M]. destruct (set_add_spec i s) as [D' M'].
    split; [auto|].
    intros j. rewrite M, M'. intuition.
Qed.

Section IdFacts.
Context {U : UnicodeDB} {P : Platform} {G : GmailService}.

Lemma collect_spec (qs : list str) :
  forall s,
    (NoDup s ->
     NoDup (fold_left (fun acc query => set_update acc (search_emails query 200)) qs s))
    /\ (forall j,
           In j (fold_left (fun acc query => set_update acc (search_emails query 200)) qs s)
           <-> In j s \/ exists q, In q qs /\ In j (search_emails q 200)).
Proof.
  induction qs as [|q qs IH]; intros s; simpl.
  - split; [auto|]. intros j. split; [auto|]. intros [H | (q & [] & _)]. exact H.
  - destruct (IH (set_update s (search_emails q 200))) as [D M].
    destruct (set_update_spec (search_emails q 200) s) as [D' M'].
    split; [auto|].
    intros j. rewrite M, M'. split.
    + intros [[H | H] | (q' & Hq & H)]; eauto.
    + intros [H | (q' & [<- | Hq] & H)]; eauto.
Qed.

(** X5: the ids to process.  [all_ids] holds each message id once, however
    many of the four searches returned it and however often, and it holds
    exactly the ids some search returned; a search that raised or whose
    response had no [messages] adds none. *)
Theorem all_ids_each_once (months : nat) :
  NoDup (all_ids months)
  /\ (forall i,
         In i (all_ids months)
         <-> exists q, In q (queries months) /\ In i (search_emails q 200))
  /\ (forall q,
         messages_list q 200 = None \/ messages_list q 200 = Some None ->
         search_emails q 200 = []).
Proof.
  unfold all_ids. destruct (collect_spec (queries months) []) as [D M].
  split; [apply D; constructor|]. split.
  - intros i. rewrite M. simpl. tauto.
  - intros q [H | H]; unfold search_emails; now rewrite H.
Qed.


End IdFacts.

Lemma all_ids_each_once_witness :
  @search_emails sample_service (py "after:2026/05/07 (codesignal OR hackerrank)") 200
  = [].
Proof.
  apply (proj2 (proj2 (@all_ids_each_once sample_service 6))). left.
  vm_compute. reflexivity.
Defined.


(** ** How much of the text is read *)

Section PrefixFacts.
Context {U : UnicodeDB}.

Lemma extract_role_searches (subject body : str) :
  extract_role subject body =
  role_result
    (first_some [re_search role_generic_re subject true;
                 body_search role_generic_re body;
                 re_search role_title_re subject true;
                 body_search role_title_re body]).
Proof.
  unfold extract_role, patterns, extract_role_loop, body_search.
  cbn [first_some role_result].
  destruct (re_search role_generic_re subject true); [reflexivity|].
  destruct (truthy body).
  - destruct (re_search role_generic_re (slice_to 200 body) true); [reflexivity|].
    destruct (re_search role_title_re subject true); [reflexivity|].
    destruct (re_search role_title_re (slice_to 200 body) true); reflexivity.
  - destruct (re_search role_title_re subject true); reflexivity.
Qed.

Lemma truthy_firstn (n : nat) (b1 b2 : str) :
  firstn (S n) b1 = firstn (S n) b2 -> truthy b1 = truthy b2.
Proof. destruct b1, b2; simpl; intros H; [reflexivity| | |reflexivity]; discriminate. Qed.

Lemma firstn_shorter (n m : nat) (b1 b2 : str) :
  n <= m -> firstn m b1 = firstn m b2 -> firstn n b1 = firstn n b2.
Proof.
  intros L H.
  rewrite <- (Nat.min_l n m L), <- !firstn_firstn. now rewrite H.
Qed.

(** X7: only the start of the body is read.  Two bodies with the same first
    200 characters give the same role, two bodies with the same first 500
    characters give the same status and the same role, whatever follows. *)
Theorem body_read_up_to (subject body1 body2 : str) :
  (firstn 200 body1 = firstn 200 body2 ->
   extract_role subject body1 = extract_role subject body2)
  /\ (firstn 500 body1 = firstn 500 body2 ->
      categorize_status subject body1 = categorize_status subject body2
      /\ extract_role subject body1 = extract_role subject body2).
Proof.
  assert (R : firstn 200 body1 = firstn 200 body2 ->
              extract_role subject body1 = extract_role subject body2).
  { intros H. rewrite !extract_role_searches. unfold body_search, slice_to.
    now rewrite H, (truthy_firstn _ _ _ H). }
  split; [exact R|]. intros H. split.
  - unfold categorize_status. rewrite !haystack_eq. now rewrite H.
  - apply R. apply (firstn_shorter _ _ (m:=500)); [lia | exact H].
Qed.

Lemma contains_inside (needle x y z : str) :
  contains needle y = true -> contains needle (x ++ y ++ z) = true.
Proof. intros H. apply contains_app_r, contains_app_l, H. Qed.

(** X8: text around an alert does not hide it.  A pair that is an alert is
    still one when text is put before the sender or after the subject, and a
    sender that contains a denylisted substring is an alert with any text
    around it and any subject. *)
Theorem alert_survives_added_text (email_from subject : str) :
  (is_job_alert email_from subject = true ->
   forall before after,
     is_job_alert (before ++ email_from) (subject ++ after) = true)
  /\ (any_in spam_indicators (lower email_from) = true ->
      forall before after any_subject,
        is_job_alert (before ++ email_from ++ after) any_subject = true).
Proof.
  split.
  - unfold is_job_alert, any_in. intros H before after.
    apply existsb_exists in H. destruct H as (ind & Hin & H).
    apply existsb_exists. exists ind. split; [exact Hin|].
    assert (E : (before ++ email_from) ++ py " " ++ subject ++ after
                = before ++ (email_from ++ py " " ++ subject) ++ after).
    { now rewrite <- !app_assoc. }
    rewrite E, lower_app, (lower_app (email_from ++ py " " ++ subject) after).
    now apply contains_inside.
  - unfold is_job_alert, any_in. intros H before after any_subject.
    apply existsb_exists in H. destruct H as (ind & Hin & H).
    apply existsb_exists. exists ind. split; [exact Hin|].
    rewrite <- !app_assoc, lower_app, (lower_app email_from).
    now apply contains_inside.
Qed.

End PrefixFacts.

Lemma body_read_up_to_witness :
  @categorize_status plain_db (py "Your application")
    (repeat 120%N 500 ++ py " unfortunately we moved on")
  = @categorize_status plain_db (py "Your application")
      (repeat 120%N 500 ++ py " we would like to schedule an interview").
Proof.
  apply (proj2 (@body_read_up_to plain_db (py "Your application")
                  (repeat 120%N 500 ++ py " unfortunately we moved on")
                  (repeat 120%N 500 ++ py " we would like to schedule an interview"))).
  vm_compute. reflexivity.
Defined.

Lemma alert_survives_added_text_witness :
  @is_job_alert plain_db (py "Indeed <alerts@Indeed.com>") (py "Your weekly update")
  = true.
Proof.
  apply (proj2 (@alert_survives_added_text plain_db (py "@Indeed.com") [])
           ltac:(vm_compute; reflexivity)
           (py "Indeed <alerts") (py ">") (py "Your weekly update")).
Defined.

(** ** The key metrics *)

Section MetricsFacts.
Context {P : Platform}.

Lemma filter_shorter {A} (f : A -> bool) (l : list A) :
  length (filter f l) <= length l.
Proof.
  induction l as [|x l IH]; simpl; [lia|]. destruct (f x); simpl; lia.
Qed.

Lemma filter_length_perm {A} (f : A -> bool) (l l' : list A) :
  Permutation l l' -> length (filter f l) = length (filter f l').
Proof.
  induction 1 as [|x l l' _ IH|x y l|l l' l'' _ IH1 _ IH2]; simpl.
  - reflexivity.
  - destruct (f x); simpl; lia.
  - destruct (f x), (f y); reflexivity.
  - lia.
Qed.

Lemma key_metrics_guarded_columns (df : DataFrame) :
  In (py "Status") (columns df) ->
  exists printed, key_metrics df = Some printed.
Proof.
  intros Hc. unfold key_metrics.
  assert (E : existsb (str_eqb (py "Status")) (columns df) = true)
    by now apply existsb_str_eqb.
  rewrite E.
  destruct (status_count df (fun s => str_eqb s (py "Applied"))) as [|applied];
    [now exists []|].
  cbn [Nat.ltb Nat.leb true_div Nat.eqb].
  destruct (status_count df (isin [py "Interview"; py "Assessment"]))
    as [|interview] eqn:Ei; [eexists; reflexivity|].
  pose proof (filter_shorter
                (status_is (columns df) (isin [py "Interview"; py "Assessment"]))
                (rows df)) as L.
  fold (status_count df (isin [py "Interview"; py "Assessment"])) in L.
  rewrite Ei in L.
  destruct (length (rows df)) as [|n] eqn:En; [lia|].
  cbn [Nat.ltb Nat.leb true_div Nat.eqb]. eexists. reflexivity.
Qed.

(** X9: the key-metrics block divides safely.  On a frame with a Status
    column it raises nothing: the two percentages of the applied messages are
    computed only when there is one, and the interview rate only when there
    is an interview or assessment, hence a row.  It prints nothing at all
    exactly when no row has the status Applied, whatever the other
    counts. *)
Theorem key_metrics_guarded (df : DataFrame) :
  In (py "Status") (columns df) ->
  exists printed,
    key_metrics df = Some printed
    /\ (printed = [] <-> status_count df (fun s => str_eqb s (py "Applied")) = 0).
Proof.
  intros Hc. unfold key_metrics.
  assert (E : existsb (str_eqb (py "Status")) (columns df) = true)
    by now apply existsb_str_eqb.
  rewrite E.
  destruct (status_count df (fun s => str_eqb s (py "Applied"))) as [|applied] eqn:Ea.
  - exists []. simpl. tauto.
  - cbn [Nat.ltb Nat.leb true_div Nat.eqb].
    destruct (status_count df (isin [py "Interview"; py "Assessment"]))
      as [|interview] eqn:Ei.
    + eexists. split; [reflexivity|]. split; [discriminate | lia].
    + pose proof (filter_shorter
                    (status_is (columns df) (isin [py "Interview"; py "Assessment"]))
                    (rows df)) as L.
      fold (status_count df (isin [py "Interview"; py "Assessment"])) in L.
      rewrite Ei in L.
      destruct (length (rows df)) as [|n] eqn:En; [lia|].
      cbn [Nat.ltb Nat.leb true_div Nat.eqb].
      eexists. split; [reflexivity|]. split; [discriminate | lia].
Qed.

End MetricsFacts.

Lemma key_metrics_guarded_witness :
  exists printed,
    key_metrics sample_frame = Some printed
    /\ (printed = [] <->
        status_count sample_frame (fun s => str_eqb s (py "Applied")) = 0).
Proof.
  apply (@key_metrics_guarded utc_platform sample_frame).
  vm_compute. tauto.
Defined.

Section CountFacts.
Context {U : UnicodeDB} {P : Platform}.

Lemma events_are_tracked (f : option email) (r : record) :
  In r (events_of f) -> is_tracked r.
Proof.
  unfold events_of, process_email. destruct f as [e|]; [|intros []].
  destruct (is_job_alert (from_of e) (subject_of e)); [intros []|].
  destruct (application e) as [r'|x] eqn:A; [|intros []]. simpl.
  intros [<- | []].
  destruct (application_shape e A) as (d & company & role & _ & ->).
  unfold is_tracked.
  do 5 eexists. split; [reflexivity | apply categorize_status_closed].
Qed.

Lemma analysed_are_tracked (fetched : list (option email)) (apps : list record) :
  analyze_applications [] fetched = Ok apps -> Forall is_tracked apps.
Proof.
  intros H. destruct (analyze_applications_ok _ _ H) as [_ ->]. simpl.
  apply Forall_forall. intros r Hr. apply in_flat_map in Hr.
  destruct Hr as (f & _ & Hr). now apply events_are_tracked in Hr.
Qed.

Lemma tracked_in_one_class (r : record) :
  is_tracked r ->
  length (filter (fun p => status_is report_columns p (values r)) status_classes) = 1.
Proof.
  intros (d & c & ro & st & su & -> & Hst).
  simpl in Hst.
  destruct Hst as [<- | [<- | [<- | [<- | [<- | []]]]]]; vm_compute; reflexivity.
Qed.

Lemma classes_partition (l : list record) :
  Forall is_tracked l ->
  length (filter (status_is report_columns (fun s => str_eqb s (py "Applied")))
                 (map values l))
  + length (filter (status_is report_columns (fun s => str_eqb s (py "Rejected")))
                   (map values l))
  + length (filter (status_is report_columns (isin [py "Interview"; py "Assessment"]))
                   (map values l))
  + length (filter (status_is report_columns (fun s => str_eqb s (py "Other")))
                   (map values l))
  = length l.
Proof.
  induction 1 as [|r l Hr _ IH]; [reflexivity|].
  apply tracked_in_one_class in Hr. unfold status_classes in Hr.
  cbn [map filter length] in *.
  destruct (status_is report_columns (fun s => str_eqb s (py "Applied")) (values r)),
           (status_is report_columns (fun s => str_eqb s (py "Rejected")) (values r)),
           (status_is report_columns (isin [py "Interview"; py "Assessment"]) (values r)),
           (status_is report_columns (fun s => str_eqb s (py "Other")) (values r));
    cbn [length] in *; try discriminate; lia.
Qed.

Variable sort_values : str -> bool -> DataFrame -> DataFrame.

Hypothesis sort_values_columns :
  forall by_ ascending df, columns (sort_values by_ ascending df) = columns df.
Hypothesis sort_values_rows :
  forall by_ ascending df,
    Permutation (rows (sort_values by_ ascending df)) (rows df).

(** X10: the counts of the report add up.  In the frame [generate_report]
    builds from what the loop gathered there are as many rows as records, and
    every row is counted in exactly one of Applied, Rejected,
    Interview-or-Assessment and Other; so the three counts the key metrics
    use never add up to more than the total, and the block finds its Status
    column and raises nothing. *)
Theorem report_counts_add_up
    (fetched : list (option email)) (apps : list record)
    (cwd : working_dir) (file : csv) (df : DataFrame) :
  analyze_applications [] fetched = Ok apps ->
  generate_report sort_values cwd apps = Ok (Some (file, df)) ->
  length (rows df) = length apps
  /\ status_count df (fun s => str_eqb s (py "Applied"))
     + status_count df (fun s => str_eqb s (py "Rejected"))
     + status_count df (isin [py "Interview"; py "Assessment"])
     + status_count df (fun s => str_eqb s (py "Other"))
     = length apps
  /\ exists printed, key_metrics df = Some printed.
Proof.
  intros Hrun Hrep.
  pose proof (analysed_are_tracked _ Hrun) as Ht.
  pose proof (processed_are_applications _ Hrun) as Ha.
  destruct apps as [|r0 rs0] eqn:Eapps; [discriminate|]. rewrite <- Eapps in *.
  assert (Hne : apps <> []) by (rewrite Eapps; discriminate).
  assert (Edf : df = sort_values (py "Date") false (DataFrame_of apps)).
  { rewrite Eapps in Hrep |- *. simpl in Hrep.
    destruct (has_output_dir cwd); [|discriminate]. now injection Hrep as _ <-. }
  assert (Hc : columns df = report_columns).
  { rewrite Edf, sort_values_columns, (DataFrame_of_applications Hne Ha).
    reflexivity. }
  assert (Hp : Permutation (rows df) (map values apps)).
  { rewrite Edf, sort_values_rows, (DataFrame_of_applications Hne Ha).
    reflexivity. }
  split; [now rewrite (Permutation_length Hp), length_map|].
  split.
  - unfold status_count. rewrite Hc.
    rewrite !(filter_length_perm _ Hp). now apply classes_partition.
  - destruct (@key_metrics_guarded_columns _ df) as [printed Hk];
      [rewrite Hc; simpl; tauto | now exists printed].
Qed.

End CountFacts.

Lemma report_counts_add_up_witness :
  let fetched := [Some applied_email; None; Some noise_email; Some rejection_email] in
  let apps := flat_map (@events_of plain_db utc_platform) fetched in
  let df := sort_values_by_insertion (py "Date") false (DataFrame_of apps) in
  length (rows df) = length apps
  /\ status_count df (fun s => str_eqb s (py "Applied"))
     + status_count df (fun s => str_eqb s (py "Rejected"))
     + status_count df (isin [py "Interview"; py "Assessment"])
     + status_count df (fun s => str_eqb s (py "Other"))
     = length apps
  /\ exists printed, key_metrics df = Some printed.
Proof.
  intros fetched apps df.
  apply (@report_counts_add_up plain_db utc_platform sort_values_by_insertion
           (fun by_ ascending df => eq_refl)
           (fun by_ ascending df => insertion_sort_perm _ (rows df))
           fetched apps {| has_output_dir := true |} (to_csv df) df).
  - exact (analyze_applications_events sample_fetched_go_on []).
  - vm_compute. reflexivity.
Defined.

(** ** The length of a role *)

Section RoleLength.
Context {U : UnicodeDB}.

Lemma matches_max_len (ignorecase : bool) (r : regex) :
  forall w rest g g' n,
    matches ignorecase r w rest g g' -> max_len r = Some n -> length w <= n.
Proof.
  induction r as [|a|r1 IH1 r2 IH2|r1 IH1 r2 IH2|a lo hi greedy|k r1 IH1|];
    intros w rest g g' n M H; simpl in M, H.
  - destruct M as [-> _]. simpl. lia.
  - destruct M as (c & -> & _). injection H as <-. simpl. lia.
  - destruct M as (w1 & w2 & g1 & -> & M1 & M2).
    destruct (max_len r1) as [a|]; [|discriminate].
    destruct (max_len r2) as [b|]; [|discriminate].
    injection H as <-. rewrite length_app.
    pose proof (IH1 _ _ _ _ _ M1 eq_refl). pose proof (IH2 _ _ _ _ _ M2 eq_refl).
    lia.
  - destruct (max_len r1) as [a|]; [|discriminate].
    destruct (max_len r2) as [b|]; [|discriminate].
    injection H as <-.
    destruct M as [M | M];
      [pose proof (IH1 _ _ _ _ _ M eq_refl) | pose proof (IH2 _ _ _ _ _ M eq_refl)];
      lia.
  - destruct M as (_ & _ & Hhi & _). subst hi. exact Hhi.
  - destruct M as (g1 & M & _). eapply IH1; eauto.
  - destruct M as [-> _]. simpl. lia.
Qed.

Lemma matches_no_group (ignorecase : bool) (r : regex) :
  forall w rest g g',
    matches ignorecase r w rest g g' -> has_group r = false -> g' = g.
Proof.
  induction r as [|a|r1 IH1 r2 IH2|r1 IH1 r2 IH2|a lo hi greedy|k r1 IH1|];
    intros w rest g g' M H; simpl in M, H.
  - now destruct M.
  - now destruct M as (c & _ & _ & ->).
  - apply orb_false_iff in H. destruct H as [H1 H2].
    destruct M as (w1 & w2 & g1 & _ & M1 & M2).
    rewrite (IH2 _ _ _ _ M2 H2). exact (IH1 _ _ _ _ M1 H1).
  - apply orb_false_iff in H. destruct H as [H1 H2].
    destruct M as [M | M]; eauto.
  - now destruct M as (_ & _ & _ & ->).
  - discriminate.
  - now destruct M as (_ & _ & ->).
Qed.

(** The word group 1 of a role pattern captured: a piece of the text of at
    most 40 characters. *)
Lemma role_capture (r : regex) (text : str) (g : groups) :
  r = role_generic_re \/ r = role_title_re ->
  search_from true r text = Some g ->
  exists pre w post,
    text = pre ++ w ++ post /\ lookup_group 1 g = Some w /\ length w <= 40.
Proof.
  intros Hr H. apply search_from_sound in H.
  destruct H as (pre & W & post & -> & M). destruct Hr as [-> | ->].
  - unfold role_generic_re in M.
    destruct M as (w1 & w23 & g1 & -> & M1 & M23).
    destruct M23 as (w2 & w3 & g2 & -> & (g2' & (_ & _ & Hhi & ->) & ->) & M3).
    apply matches_no_group in M1; [|reflexivity].
    apply matches_no_group in M3; [|reflexivity].
    subst. exists (pre ++ w1), w2, (w3 ++ post).
    split; [now rewrite <- !app_assoc|]. split; [reflexivity | exact Hhi].
  - unfold role_title_re in M. destruct M as (g1 & M & ->).
    exists pre, W, post. split; [reflexivity|]. split; [reflexivity|].
    pose proof (@matches_max_len true _ _ _ _ _ 17 M eq_refl). lia.
Qed.

Lemma lstrip_keeps (Q : char -> Prop) (s : str) :
  Forall Q s -> Forall Q (lstrip s) /\ length (lstrip s) <= length s.
Proof.
  induction 1 as [|c s Hc Hs IH]; simpl; [split; [constructor | lia]|].
  destruct (is_space c); [destruct IH; split; [assumption | lia]|].
  split; [now constructor | simpl; lia].
Qed.

Lemma strip_keeps (Q : char -> Prop) (s : str) :
  Forall Q s -> Forall Q (strip s) /\ length (strip s) <= length s.
Proof.
  intros H. unfold strip.
  destruct (lstrip_keeps H) as [H1 L1].
  destruct (lstrip_keeps (Forall_rev H1)) as [H2 L2].
  split; [now apply Forall_rev|].
  rewrite length_rev. rewrite length_rev in L2. lia.
Qed.

Lemma title_from_length (s : str) :
  ascii_str s -> forall b, length (title_from b s) = length s.
Proof.
  induction 1 as [|c s Hc _ IH]; intros b; simpl; [reflexivity|].
  rewrite length_app, IH. unfold lower_char, title_char. rewrite Hc.
  now destruct b.
Qed.

Lemma role_of_search (r : regex) (text : str) (m : match_obj) :
  r = role_generic_re \/ r = role_title_re ->
  ascii_str text ->
  re_search r text true = Some m ->
  exists role, role_of_match m = Ok role /\ length role <= 40.
Proof.
  intros Hr Ha H. unfold re_search in H.
  destruct (search_from true r text) as [g|] eqn:E; [|discriminate].
  injection H as <-.
  destruct (@role_capture _ _ _ Hr E) as (pre & w & post & -> & Hg & Hl).
  assert (N : (1 <=? ngroups r)%nat = true) by (destruct Hr as [-> | ->]; reflexivity).
  unfold role_of_match, group. cbn [m_ngroups m_groups].
  rewrite N, Hg. cbn [bind call]. eexists. split; [reflexivity|].
  apply Forall_app in Ha. destruct Ha as [_ Ha].
  apply Forall_app in Ha. destruct Ha as [Ha _].
  destruct (strip_keeps Ha) as [Hs Ls].
  unfold title. rewrite (title_from_length Hs). lia.
Qed.

(** X11: the role fits the report's column.  For an ASCII subject and body,
    [extract_role] returns at most 40 characters, the width the report
    prints a role in: the generic pattern captures at most 40, the title
    vocabulary at most 17, stripping only shortens and title-casing keeps
    the length. *)
Theorem extract_role_at_most_40 (subject body : str) :
  ascii_str subject ->
  ascii_str body ->
  exists role, extract_role subject body = Ok role /\ length role <= 40.
Proof.
  intros Hs Hb.
  assert (Hb' : ascii_str (slice_to 200 body)).
  { unfold slice_to, ascii_str. rewrite <- (firstn_skipn 200 body) in Hb.
    now apply Forall_app in Hb. }
  rewrite extract_role_searches. unfold body_search.
  assert (Unknown : exists role,
             Ok (py "Unknown") = Ok role /\ length role <= 40).
  { eexists. split; [reflexivity | simpl; lia]. }
  cbn [first_some role_result].
  destruct (re_search role_generic_re subject true) as [m|] eqn:E1.
  { exact (@role_of_search _ _ _ (or_introl eq_refl) Hs E1). }
  destruct (truthy body).
  - destruct (re_search role_generic_re (slice_to 200 body) true) as [m|] eqn:E2.
    { exact (@role_of_search _ _ _ (or_introl eq_refl) Hb' E2). }
    destruct (re_search role_title_re subject true) as [m|] eqn:E3.
    { exact (@role_of_search _ _ _ (or_intror eq_refl) Hs E3). }
    destruct (re_search role_title_re (slice_to 200 body) true) as [m|] eqn:E4.
    { exact (@role_of_search _ _ _ (or_intror eq_refl) Hb' E4). }
    exact Unknown.
  - destruct (re_search role_title_re subject true) as [m|] eqn:E3.
    { exact (@role_of_search _ _ _ (or_intror eq_refl) Hs E3). }
    exact Unknown.
Qed.

End RoleLength.

Lemma extract_role_at_most_40_witness :
  exists role,
    @extract_role plain_db
      (py "Application for Senior Staff Software Engineer Platform Team Europe - Acme")
      (py "Thank you.")
    = Ok role
    /\ length role <= 40.
Proof.
  apply (@extract_role_at_most_40 plain_db); repeat constructor.
Defined.

(** ** The company of an ordinary sender *)

Lemma replace_from_absent (old new s : str) :
  contains old s = false -> replace_from old new 0 s = s.
Proof.
  induction s as [|c s IH]; [reflexivity|].
  intros H. cbn [contains] in H. apply orb_false_iff in H. destruct H as [H1 H2].
  cbn [replace_from]. rewrite H1. now rewrite IH.
Qed.

Lemma contains_longer (a b s : str) :
  contains (a ++ b) s = true -> contains b s = true.
Proof.
  rewrite !contains_iff. intros (p & q & ->).
  exists (p ++ a), q. now rewrite <- !app_assoc.
Qed.

Lemma strip_platforms_plain (label : str) :
  contains (py "greenhouse") label = false ->
  contains (py "lever") label = false ->
  contains (py "workday") label = false ->
  strip_platforms label = label.
Proof.
  intros Hg Hl Hw. unfold strip_platforms.
  change (replace (py "greenhouse") [] label)
    with (replace_from (py "greenhouse") [] 0 label).
  rewrite (replace_from_absent _ _ _ Hg).
  change (replace (py "lever") [] label) with (replace_from (py "lever") [] 0 label).
  rewrite (replace_from_absent _ _ _ Hl).
  change (replace (py "workday") [] label)
    with (replace_from (py "workday") [] 0 label).
  rewrite (replace_from_absent _ _ _ Hw).
  change (replace (py "myworkday") [] label)
    with (replace_from (py "myworkday") [] 0 label).
  apply replace_from_absent.
  destruct (contains (py "myworkday") label) eqn:E; [|reflexivity].
  apply (contains_longer (py "my") (py "workday")) in E. congruence.
Qed.

Section DomainCompany.
Context {U : UnicodeDB}.

Lemma match_re_lit (A : Type) (l : str) :
  forall (s : str) (g : groups) (k : str -> groups -> option A),
    match_re false (lit_of l) s g k =
    if startswith l s then k (skipn (length l) s) g else None.
Proof.
  assert (one : forall c (s : str) (g : groups) (k : str -> groups -> option A),
             match_re false (Atom (ALit c)) s g k =
             if startswith [c] s then k (skipn 1 s) g else None).
  { intros c s g k. destruct s as [|d s]; [reflexivity|].
    cbn [match_re atom_match lit_match startswith skipn].
    rewrite (N.eqb_sym c d). now destruct (d =? c)%N. }
  induction l as [|c l IH]; intros s g k.
  - reflexivity.
  - destruct l as [|c' l].
    + apply one.
    + change (lit_of (c :: c' :: l)) with (Atom (ALit c) +> lit_of (c' :: l)).
      cbn [match_re atom_match lit_match].
      destruct s as [|d s]; [reflexivity|].
      cbn [startswith skipn length]. rewrite (N.eqb_sym c d).
      destruct (d =? c)%N; [|reflexivity].
      cbn [andb]. rewrite IH. reflexivity.
Qed.

(** A greedy repetition in front of a character it cannot take runs to that
    character, when the rest of the pattern succeeds there. *)
Lemma match_rep_greedy_run (A : Type) (a : atom) (run : str) (stop : char)
    (rest : str) (k : str -> option A) (x : A) :
  Forall (fun c => atom_match false a c = true) run ->
  atom_match false a stop = false ->
  k (stop :: rest) = Some x ->
  forall lo, lo <= length run ->
    match_rep false a true lo None k (run ++ stop :: rest) = Some x.
Proof.
  intros Hrun Hstop Hk. induction Hrun as [|c run Hc _ IH]; intros lo Hlo.
  - simpl in Hlo. assert (lo = 0) as -> by lia.
    cbn [app match_rep]. rewrite Hstop. exact Hk.
  - cbn [app match_rep]. rewrite Hc. cbn [room andb one_less option_map].
    rewrite IH; [reflexivity | simpl in Hlo; lia].
Qed.

Lemma domain_match_here (label tld post : str) :
  Forall (fun c => is_label_char c = true) label ->
  label <> [] ->
  In tld tlds ->
  exists tld',
    match_re false company_domain_re (64%N :: label ++ 46%N :: tld ++ post) []
             (fun _ g => Some g)
    = Some [(2, tld'); (1, label)].
Proof.
  intros Hl Hne Ht. unfold company_domain_re.
  change (lit "@") with (Atom (ALit 64%N)).
  change (lit ".") with (Atom (ALit 46%N)).
  cbn [match_re atom_match lit_match]. rewrite N.eqb_refl.
  match goal with
  | |- exists tld', match_rep _ _ _ _ _ ?K _ = _ => set (k := K)
  end.
  assert (K : exists tld', k (46%N :: tld ++ post) = Some [(2, tld'); (1, label)]).
  { subst k. cbv beta match. rewrite N.eqb_refl.
    assert (F : forall l r : str, firstn (length (l ++ r) - length r) (l ++ r) = l).
    { intros l r. rewrite length_app, Nat.add_sub. apply firstn_length_app. }
    rewrite (F label).
    unfold lit. rewrite !match_re_lit.
    simpl in Ht.
    destruct Ht as [<- | [<- | [<- | [<- | []]]]];
      repeat match goal with
             | |- context [startswith ?l ?s] =>
                 destruct (startswith l s) eqn:?; [eexists; reflexivity|]
             end;
      cbn [app startswith py map list_ascii_of_string N_of_ascii] in *;
      try discriminate. }
  destruct K as [tld' K]. exists tld'.
  apply match_rep_greedy_run; [| reflexivity | exact K |].
  - eapply Forall_impl; [|exact Hl]. intros c Hc.
    unfold is_label_char in Hc. cbn [atom_match existsb item_match lit_match].
    now rewrite orb_false_r.
  - destruct label; [contradiction | simpl; lia].
Qed.

Lemma search_past (r : regex) (pre s : str) (g : groups) :
  (forall c s', In c pre ->
     match_re false r (c :: s') [] (fun _ g0 => Some g0) = None) ->
  search_from false r (pre ++ s) = search_from false r s.
Proof.
  intros H. induction pre as [|c pre IH]; [reflexivity|].
  cbn [app search_from]. rewrite (H c _ (or_introl eq_refl)).
  apply IH. intros c' s' Hin. apply H. now right.
Qed.

(** X12: an ordinary sender gives its domain as the company.  When the
    lower-cased sender reads [pre @ label . tld ...] with no [@] before, a
    label of more than two word characters or dashes that holds no platform
    name, and tld among com, io, ai, co, then [extract_company] returns the
    label in title case, whatever the subject says. *)
Theorem extract_company_from_domain
    (email_from subject pre label tld post : str) :
  lower email_from = pre ++ 64%N :: label ++ 46%N :: tld ++ post ->
  ~ In 64%N pre ->
  Forall (fun c => is_label_char c = true) label ->
  In tld tlds ->
  2 < length label ->
  contains (py "greenhouse") label = false ->
  contains (py "lever") label = false ->
  contains (py "workday") label = false ->
  extract_company email_from subject = Ok (title label).
Proof.
  intros Hs Hpre Hl Ht Hlen Hg Hv Hw.
  assert (Hne : label <> []) by (destruct label; [simpl in Hlen; lia | discriminate]).
  destruct (domain_match_here post Hl Hne Ht) as [tld' Hm].
  unfold extract_company, re_search. rewrite Hs.
  rewrite (search_past company_domain_re pre _ []).
  - destruct label as [|c0 label0] eqn:El; [contradiction|]. rewrite <- El in *.
    assert (S : search_from false company_domain_re
                  (64%N :: label ++ 46%N :: tld ++ post)
                = Some [(2, tld'); (1, label)]).
    { cbn [search_from]. now rewrite Hm. }
    rewrite S. cbn [option_map]. unfold group. cbn [m_ngroups m_groups].
    change (1 <=? ngroups company_domain_re)%nat with true.
    cbn [lookup_group Nat.eqb bind call].
    rewrite (strip_platforms_plain _ Hg Hv Hw).
    destruct (Nat.ltb_spec 2 (length label)) as [_ | L]; [|lia].
    rewrite El at 1. reflexivity.
  - intros c s' Hin. unfold company_domain_re.
    change (lit "@") with (Atom (ALit 64%N)).
    cbn [match_re atom_match lit_match].
    destruct (N.eqb_spec c 64); [subst; contradiction | reflexivity].
Qed.

End DomainCompany.

Lemma extract_company_from_domain_witness :
  @extract_company plain_db (py "Jane Doe <Recruiting@Acme-Labs.CO.uk>")
    (py "Your interview at Initech - next steps")
  = Ok (py "Acme-Labs").
Proof.
  apply (@extract_company_from_domain plain_db
           (py "Jane Doe <Recruiting@Acme-Labs.CO.uk>")
           (py "Your interview at Initech - next steps")
           (py "jane doe <recruiting") (py "acme-labs") (py "co") (py ".uk>"));
    try (vm_compute; reflexivity).
  - vm_compute. intuition discriminate.
  - repeat constructor.
  - vm_compute. tauto.
  - vm_compute. lia.
Defined.
